(** * ASV monorepo scaffold generator: the structure table and its writer

    A shallow embedding of [check.py]: the module-level construction of
    [REPO_STRUCTURE], the three helpers [ensure_parent_dir], [write_file]
    and [chmod_executables], and [main].

    The file system the script acts on is a tree of directories and
    regular files in which every entry has exactly one path, and a
    computation is a function from the tree to an outcome (a value or a
    raised exception) and a tree.  The [pathlib]
    methods the script calls ([mkdir] with [parents] and [exist_ok],
    [exists], [write_text], [chmod]) are modelled on that tree the way
    CPython implements them over [os.mkdir], [open] and [os.chmod].  The
    platform is a parameter: it says which of these system calls it
    refuses (permission denied, disk full, ...), what the creation mask
    is, and what [os.linesep] is.

    Outside the model: hard links and symbolic links (a second name for
    a file, through which a write or a [chmod] at one path would show at
    another, cannot be expressed; the statements about what a write
    leaves untouched are statements about such link-free trees), [..]
    components, the parsing of the command line and the resolution of
    [--root] (the root is given as a resolved absolute path), failures of
    [stat] inside [exists] and [is_dir], and failures of [print]. *)

From stdpp Require Import gmap strings list.
From Stdlib Require Import Ascii DecimalString.

#[local] Set Warnings "-register-all,-clear-no-such-hyp".
#[local] Open Scope string_scope.
#[local] Open Scope list_scope.

(** ** Strings *)

(** Line feed, tab, double quote and backslash. *)
Definition LF : ascii := ascii_of_nat 10.
Definition TAB : ascii := ascii_of_nat 9.
Definition DQUOTE : ascii := ascii_of_nat 34.
Definition BACKSLASH : ascii := ascii_of_nat 92.

Definition nl : string := String LF EmptyString.

(** [lit s] reads [s] as the body of a Python string literal: [\n] is a
    line feed, [\t] a tab, [\\] a backslash, and [\q] stands for the
    double quote (which the source writes either bare inside a
    single-quoted literal or as a backslash followed by the quote).  As in
    Python, a backslash before any other character is kept.  Non-ASCII
    characters are the bytes of their UTF-8 encoding, which is what
    [write_text(..., encoding=utf-8)] puts on disk. *)
Fixpoint lit (s : string) : string :=
  match s with
  | EmptyString => EmptyString
  | String c EmptyString => String c EmptyString
  | String c (String e s' as rest) =>
      if Ascii.eqb c BACKSLASH then
        if Ascii.eqb e "n" then String LF (lit s')
        else if Ascii.eqb e "t" then String TAB (lit s')
        else if Ascii.eqb e "q" then String DQUOTE (lit s')
        else if Ascii.eqb e BACKSLASH then String BACKSLASH (lit s')
        else String c (lit rest)
      else String c (lit rest)
  end.

(** [s.startswith(p)] *)
Fixpoint is_prefix_of (p s : string) : bool :=
  match p, s with
  | EmptyString, _ => true
  | String a p', String b s' => Ascii.eqb a b && is_prefix_of p' s'
  | String _ _, EmptyString => false
  end.

(** [needle in hay] *)
Fixpoint contains (needle hay : string) : bool :=
  is_prefix_of needle hay ||
  match hay with
  | EmptyString => false
  | String _ hay' => contains needle hay'
  end.

(** ** Python dictionaries

    A [dict] keeps its items in insertion order; assigning to a key that
    is already present replaces the value and keeps the position. *)
Definition dict : Type := list (string * string).

Fixpoint dict_set (d : dict) (k v : string) : dict :=
  match d with
  | [] => [(k, v)]
  | (k', v') :: d' =>
      if decide (k' = k) then (k', v) :: d' else (k', v') :: dict_set d' k v
  end.

Fixpoint dict_get (d : dict) (k : string) : option string :=
  match d with
  | [] => None
  | (k', v') :: d' => if decide (k' = k) then Some v' else dict_get d' k
  end.

Definition dict_has (d : dict) (k : string) : bool :=
  bool_decide (is_Some (dict_get d k)).

(** [d.update(items)], and a dict display [{k1: v1, ...}]: the items are
    assigned left to right. *)
Definition dict_update (d : dict) (items : list (string * string)) : dict :=
  foldl (λ d kv, dict_set d kv.1 kv.2) d items.

Definition dict_literal (items : list (string * string)) : dict :=
  dict_update [] items.

(** [d.items()] and [d.keys()], in insertion order. *)
Definition dict_items (d : dict) : list (string * string) := d.
Definition dict_keys (d : dict) : list string := d.*1.

(** ** The structure table *)

(** The dict literal bound to [REPO_STRUCTURE] (top-level files, GitHub,
    hooks, docs, schemas, infra, vehicle root, backend skeleton). *)
Definition literal_base : list (string * string) :=
  [ ("README.md", lit "# ASV\n\nMonorepo scaffold.\n")
  ; ("LICENSE", lit "TODO: rAdd license text.\n")
  ; (".env.example", lit "# Example env\n")
  ; (".editorconfig", lit "root = true\n\n[*]\nend_of_line = lf\ninsert_final_newline = true\ncharset = utf-8\n")
  ; (".gitignore", lit ".env\n.DS_Store\n__pycache__/\n*.pyc\nnode_modules/\nbuild/\ndist/\n.ml_data/\n")
  ; ("docker-compose.yml", lit "version: '3.9'\nservices: {}\n")
  ; ("Makefile", lit "help:\n\t@echo \qASV repo scaffold\q\n")
  ; ("CHANGELOG.md", lit "# Changelog\n\n")
  ; ("SECURITY.md", lit "# Security\n\nReport issues responsibly.\n")
  ; (".github/workflows/ci.yml", lit "name: ci\non: [push, pull_request]\njobs: {}\n")
  ; (".github/workflows/lint.yml", lit "name: lint\non: [push, pull_request]\njobs: {}\n")
  ; (".github/workflows/tests.yml", lit "name: tests\non: [push, pull_request]\njobs: {}\n")
  ; (".github/workflows/security-scan.yml", lit "name: security-scan\non: [push, pull_request]\njobs: {}\n")
  ; (".github/workflows/release.yml", lit "name: release\non:\n  push:\n    tags:\n      - 'v*'\njobs: {}\n")
  ; (".github/CODEOWNERS", lit "* @CapstoneTeam\n")
  ; (".github/PULL_REQUEST_TEMPLATE.md", lit "## Summary\n\n## Testing\n\n## Screenshots/Logs\n\n")
  ; (".githooks/commit-msg", lit "#!/usr/bin/env bash\nset -euo pipefail\n\nmsg_file=\q$1\q\nsubject=\q$(head -n1 \q$msg_file\q)\q\n\n# Example: feat(flutter): add vehicle mode toggle @anmol\npattern='^(feat|fix|perf|refactor|test|docs|style|chore|build|ci|revert)(\\([a-z0-9_-]+\\))?: .+ @[a-z0-9_]+$'\n\nif ! [[ \q$subject\q =~ $pattern ]]; then\n  echo \q❌ Invalid commit message.\q\n  echo \qUse: type(scope): message @name\q\n  echo \qExample: feat(flutter): add vehicle mode toggle @anmol\q\n  echo \qAllowed types: feat fix perf refactor test docs style chore build ci revert\q\n  exit 1\nfi\n")
  ; (".githooks/pre-commit", lit "#!/usr/bin/env bash\n# optional: run formatter/lint\nexit 0\n")
  ; (".githooks/pre-push", lit "#!/usr/bin/env bash\n# optional: quick test gate\nexit 0\n")
  ; ("docs/architecture/overview.md", lit "# Architecture Overview\n")
  ; ("docs/architecture/dataflow.md", lit "# Dataflow\n")
  ; ("docs/architecture/interfaces.md", lit "# Interfaces\n")
  ; ("docs/architecture/state_machines.md", lit "# State Machines\n")
  ; ("docs/architecture/failure_modes.md", lit "# Failure Modes\n")
  ; ("docs/architecture/threat_model.md", lit "# Threat Model\n")
  ; ("docs/safety/estop.md", lit "# E-Stop\n")
  ; ("docs/safety/safe_stop_policy.md", lit "# Safe Stop Policy\n")
  ; ("docs/safety/override_policy.md", lit "# Override Policy\n")
  ; ("docs/safety/privacy_policy.md", lit "# Privacy Policy\n")
  ; ("docs/safety/retention_policy.md", lit "# Retention Policy\n")
  ; ("docs/runbooks/onboarding.md", lit "# Onboarding\n")
  ; ("docs/runbooks/local_dev.md", lit "# Local Development\n")
  ; ("docs/runbooks/staging_deploy.md", lit "# Staging Deploy\n")
  ; ("docs/runbooks/vehicle_bringup.md", lit "# Vehicle Bring-up\n")
  ; ("docs/runbooks/incident_response.md", lit "# Incident Response\n")
  ; ("docs/api/openapi.md", lit "# OpenAPI\n")
  ; ("docs/api/websocket_events.md", lit "# Websocket Events\n")
  ; ("docs/api/command_contracts.md", lit "# Command Contracts\n")
  ; ("schemas/README.md", lit "# Schemas\n\nSingle source of truth.\n")
  ; ("schemas/openapi/openapi.yaml", lit "openapi: 3.0.3\ninfo:\n  title: ASV API\n  version: 0.1.0\npaths: {}\n")
  ; ("schemas/proto/telemetry.proto", lit "syntax = \qproto3\q;\npackage asv;\n")
  ; ("schemas/proto/commands.proto", lit "syntax = \qproto3\q;\npackage asv;\n")
  ; ("schemas/proto/incidents.proto", lit "syntax = \qproto3\q;\npackage asv;\n")
  ; ("schemas/proto/auth.proto", lit "syntax = \qproto3\q;\npackage asv;\n")
  ; ("schemas/jsonschema/Telemetry.json", lit "{\n  \q$schema\q: \qhttp://json-schema.org/draft-07/schema#\q,\n  \qtitle\q: \qTelemetry\q,\n  \qtype\q: \qobject\q\n}\n")
  ; ("schemas/jsonschema/VehicleState.json", lit "{\n  \q$schema\q: \qhttp://json-schema.org/draft-07/schema#\q,\n  \qtitle\q: \qVehicleState\q,\n  \qtype\q: \qobject\q\n}\n")
  ; ("schemas/jsonschema/CommandRequest.json", lit "{\n  \q$schema\q: \qhttp://json-schema.org/draft-07/schema#\q,\n  \qtitle\q: \qCommandRequest\q,\n  \qtype\q: \qobject\q\n}\n")
  ; ("schemas/jsonschema/CommandResult.json", lit "{\n  \q$schema\q: \qhttp://json-schema.org/draft-07/schema#\q,\n  \qtitle\q: \qCommandResult\q,\n  \qtype\q: \qobject\q\n}\n")
  ; ("schemas/jsonschema/OverrideToken.json", lit "{\n  \q$schema\q: \qhttp://json-schema.org/draft-07/schema#\q,\n  \qtitle\q: \qOverrideToken\q,\n  \qtype\q: \qobject\q\n}\n")
  ; ("schemas/jsonschema/Incident.json", lit "{\n  \q$schema\q: \qhttp://json-schema.org/draft-07/schema#\q,\n  \qtitle\q: \qIncident\q,\n  \qtype\q: \qobject\q\n}\n")
  ; ("schemas/jsonschema/Alert.json", lit "{\n  \q$schema\q: \qhttp://json-schema.org/draft-07/schema#\q,\n  \qtitle\q: \qAlert\q,\n  \qtype\q: \qobject\q\n}\n")
  ; ("schemas/jsonschema/AuditEvent.json", lit "{\n  \q$schema\q: \qhttp://json-schema.org/draft-07/schema#\q,\n  \qtitle\q: \qAuditEvent\q,\n  \qtype\q: \qobject\q\n}\n")
  ; ("schemas/jsonschema/ConfigBundle.json", lit "{\n  \q$schema\q: \qhttp://json-schema.org/draft-07/schema#\q,\n  \qtitle\q: \qConfigBundle\q,\n  \qtype\q: \qobject\q\n}\n")
  ; ("infra/codeserver/Dockerfile", lit "FROM codercom/code-server:latest\n")
  ; ("infra/codeserver/docker-compose.yml", lit "version: '3.9'\nservices: {}\n")
  ; ("infra/codeserver/entrypoint.sh", lit "#!/usr/bin/env bash\nset -e\nexec \q$@\q\n")
  ; ("infra/codeserver/init-repo.sh", lit "#!/usr/bin/env bash\nset -e\n# clone repo / set hooks / install deps\n")
  ; ("infra/codeserver/README.md", lit "# CodeServer\n")
  ; ("infra/docker/vehicle.Dockerfile", lit "FROM ubuntu:24.04\n")
  ; ("infra/docker/backend.Dockerfile", lit "FROM node:20\n")
  ; ("infra/docker/sim.Dockerfile", lit "FROM ubuntu:24.04\n")
  ; ("infra/docker/ml.Dockerfile", lit "FROM python:3.11\n")
  ; ("infra/monitoring/prometheus.yml", lit "global:\n  scrape_interval: 15s\nscrape_configs: []\n")
  ; ("infra/monitoring/grafana/README.md", lit "# Grafana configs\n")
  ; ("infra/monitoring/dashboards/README.md", lit "# Dashboards\n")
  ; ("infra/k8s/README.md", lit "# K8s manifests\n")
  ; ("infra/k8s/namespaces/README.md", lit "# namespaces\n")
  ; ("infra/k8s/backend/README.md", lit "# backend\n")
  ; ("infra/k8s/monitoring/README.md", lit "# monitoring\n")
  ; ("infra/k8s/ingress/README.md", lit "# ingress\n")
  ; ("infra/terraform/README.md", lit "# Terraform\n")
  ; ("infra/terraform/modules/README.md", lit "# modules\n")
  ; ("infra/terraform/envs/README.md", lit "# envs\n")
  ; ("vehicle/README.md", lit "# Vehicle\n")
  ; ("vehicle/config/vehicle.yaml", lit "vehicle:\n  name: asv\n")
  ; ("vehicle/config/sensors.yaml", lit "sensors: {}\n")
  ; ("vehicle/config/zones.yaml", lit "zones: []\n")
  ; ("vehicle/config/rules.yaml", lit "rules: []\n")
  ; ("vehicle/config/privacy.yaml", lit "privacy:\n  face_blur_default: true\n")
  ; ("vehicle/config/logging.yaml", lit "logging:\n  level: INFO\n")
  ; ("vehicle/config/model_manifest.yaml", lit "models: {}\n")
  ; ("vehicle/launch/bringup.launch.py", lit "# bringup launch\n")
  ; ("vehicle/launch/autonomy.launch.py", lit "# autonomy launch\n")
  ; ("vehicle/launch/teleop.launch.py", lit "# teleop launch\n")
  ; ("vehicle/launch/sim_bridge.launch.py", lit "# sim bridge launch\n")
  ; ("vehicle/scripts/run_vehicle.sh", lit "#!/usr/bin/env bash\nset -e\n")
  ; ("vehicle/scripts/record_bag.sh", lit "#!/usr/bin/env bash\nset -e\n")
  ; ("vehicle/scripts/replay_bag.sh", lit "#!/usr/bin/env bash\nset -e\n")
  ; ("vehicle/scripts/health_check.sh", lit "#!/usr/bin/env bash\nset -e\n")
  ; ("vehicle/scripts/update_models.sh", lit "#!/usr/bin/env bash\nset -e\n")
  ; ("backend/README.md", lit "# Backend\n")
  ; ("backend/libs/common/config.ts", lit "export const config = {};\n")
  ; ("backend/libs/common/logger.ts", lit "export const logger = console;\n")
  ; ("backend/libs/common/errors.ts", lit "export class AppError extends Error {}\n")
  ; ("backend/libs/common/validation.ts", lit "export const validate = () => true;\n")
  ; ("backend/libs/schemas/README.md", lit "# Generated schema types\n")
  ; ("backend/db/schema.sql", lit "-- schema\n")
  ; ("backend/db/migrations/README.md", lit "# migrations\n")
  ; ("backend/db/seed/README.md", lit "# seed\n")
  ].

(** The module-level list [SERVICE_NAMES]. *)
Definition SERVICE_NAMES : list string :=
  [ "gateway"
  ; "auth"
  ; "fleet"
  ; "telemetry"
  ; "realtime"
  ; "commands"
  ; "approvals"
  ; "incidents"
  ; "alerting"
  ; "audit"
  ; "policy"
  ; "video"
  ; "config_rollout"
  ].

(** Argument of the first [REPO_STRUCTURE.update]: Apps (Flutter) skeleton. *)
Definition flutter_entries : list (string * string) :=
  [ ("apps/operator_flutter/README.md", lit "# Operator Flutter App\n")
  ; ("apps/operator_flutter/pubspec.yaml", lit "name: operator_flutter\nversion: 0.1.0\n")
  ; ("apps/operator_flutter/analysis_options.yaml", lit "include: package:flutter_lints/flutter.yaml\n")
  ; ("apps/operator_flutter/lib/main.dart", lit "void main() {}\n")
  ; ("apps/operator_flutter/lib/app.dart", lit "// app entry\n")
  ; ("apps/operator_flutter/lib/core/config.dart", lit "// config\n")
  ; ("apps/operator_flutter/lib/core/auth/README.md", lit "# auth\n")
  ; ("apps/operator_flutter/lib/core/networking/README.md", lit "# networking\n")
  ; ("apps/operator_flutter/lib/core/realtime/README.md", lit "# realtime\n")
  ; ("apps/operator_flutter/lib/core/storage/README.md", lit "# storage\n")
  ; ("apps/operator_flutter/lib/core/logging/README.md", lit "# logging\n")
  ; ("apps/operator_flutter/lib/models/README.md", lit "# models\n")
  ; ("apps/operator_flutter/lib/shared_ui/README.md", lit "# shared UI\n")
  ].

(** The module-level list [FLUTTER_FEATURES]. *)
Definition FLUTTER_FEATURES : list string :=
  [ "login"
  ; "vehicles"
  ; "live_map"
  ; "video"
  ; "incidents"
  ; "alerts"
  ; "controls"
  ; "approvals"
  ; "safety"
  ; "settings"
  ].

(** Argument of the second [REPO_STRUCTURE.update]: ML skeleton. *)
Definition ml_entries : list (string * string) :=
  [ ("ml/README.md", lit "# ML\n")
  ; ("ml/registry/manifests/README.md", lit "# manifests\n")
  ; ("ml/registry/model_cards/README.md", lit "# model cards\n")
  ; ("ml/registry/checksums/README.md", lit "# checksums\n")
  ; ("ml/inference/runtimes/onnxruntime/README.md", lit "# onnxruntime runtime\n")
  ; ("ml/inference/runtimes/tensorrt/README.md", lit "# tensorrt runtime\n")
  ; ("ml/inference/postprocess/README.md", lit "# postprocess\n")
  ; ("ml/inference/calibration/README.md", lit "# calibration\n")
  ; ("ml/inference/bench/README.md", lit "# bench\n")
  ; ("ml/training/pipelines/README.md", lit "# pipelines\n")
  ; ("ml/training/configs/README.md", lit "# configs\n")
  ; ("ml/training/augmentation/README.md", lit "# augmentation\n")
  ; ("ml/training/evaluation/README.md", lit "# evaluation\n")
  ; ("ml/training/exports/README.md", lit "# exports\n")
  ; ("ml/data/raw/.gitkeep", EmptyString)
  ; ("ml/data/interim/.gitkeep", EmptyString)
  ; ("ml/data/processed/.gitkeep", EmptyString)
  ; ("ml/data/labels/.gitkeep", EmptyString)
  ; ("ml/data/datasheets/README.md", lit "# datasheets\n")
  ; ("ml/tools/export_model.py", lit "# export model\n")
  ; ("ml/tools/dataset_qc.py", lit "# dataset qc\n")
  ; ("ml/tools/generate_model_card.py", lit "# model card generator\n")
  ].

(** The module-level list [ML_MODELS]. *)
Definition ML_MODELS : list string :=
  [ "object_detection"
  ; "behavior_detection"
  ; "alpr"
  ; "face_blur"
  ].

(** Argument of the third [REPO_STRUCTURE.update]: Simulation skeleton. *)
Definition simulation_entries : list (string * string) :=
  [ ("simulation/README.md", lit "# Simulation\n")
  ; ("simulation/world/README.md", lit "# world\n")
  ; ("simulation/vehicle_model/README.md", lit "# vehicle model\n")
  ; ("simulation/sensors/README.md", lit "# sensors\n")
  ; ("simulation/scenarios/intrusion.yaml", lit "scenario: intrusion\n")
  ; ("simulation/scenarios/loitering.yaml", lit "scenario: loitering\n")
  ; ("simulation/scenarios/tailing.yaml", lit "scenario: tailing\n")
  ; ("simulation/scenarios/crowd_event.yaml", lit "scenario: crowd_event\n")
  ; ("simulation/replay/align_timeline.py", lit "# align timeline\n")
  ; ("simulation/replay/render_overlays.py", lit "# render overlays\n")
  ; ("simulation/replay/export_report.py", lit "# export report\n")
  ; ("simulation/evaluation/metrics.py", lit "# metrics\n")
  ; ("simulation/evaluation/regressions.py", lit "# regressions\n")
  ; ("simulation/evaluation/reports/README.md", lit "# reports\n")
  ].

(** Argument of the fourth [REPO_STRUCTURE.update]: Tools skeleton. *)
Definition tools_entries : list (string * string) :=
  [ ("tools/dev/setup-hooks.sh", lit "#!/usr/bin/env bash\nset -e\ngit config core.hooksPath .githooks\nchmod +x .githooks/commit-msg\n")
  ; ("tools/dev/setup-codeserver.sh", lit "#!/usr/bin/env bash\nset -e\n# codeserver setup\n")
  ; ("tools/dev/format.sh", lit "#!/usr/bin/env bash\nset -e\n# run formatters\n")
  ; ("tools/dev/generate-clients.sh", lit "#!/usr/bin/env bash\nset -e\n# generate api clients\n")
  ; ("tools/git/_commit_tag.sh", lit "#!/usr/bin/env bash\nset -e\n# commit helper\n")
  ; ("tools/git/anmol", lit "#!/usr/bin/env bash\nset -e\nDIR=\q$(cd \q$(dirname \q$0\q)\q && pwd)\q\n\q$DIR/_commit_tag.sh\q anmol \q$@\q\n")
  ; ("tools/git/jaspinder", lit "#!/usr/bin/env bash\nset -e\nDIR=\q$(cd \q$(dirname \q$0\q)\q && pwd)\q\n\q$DIR/_commit_tag.sh\q jaspinder \q$@\q\n")
  ; ("tools/git/chris", lit "#!/usr/bin/env bash\nset -e\nDIR=\q$(cd \q$(dirname \q$0\q)\q && pwd)\q\n\q$DIR/_commit_tag.sh\q chris \q$@\q\n")
  ; ("tools/git/prabh", lit "#!/usr/bin/env bash\nset -e\nDIR=\q$(cd \q$(dirname \q$0\q)\q && pwd)\q\n\q$DIR/_commit_tag.sh\q prabh \q$@\q\n")
  ; ("tools/logs/parse.py", lit "# parse logs\n")
  ; ("tools/logs/align.py", lit "# align logs\n")
  ; ("tools/logs/export_incident_report.py", lit "# export incident report\n")
  ; ("tools/logs/redact_video.py", lit "# redact video\n")
  ; ("tools/calibration/README.md", lit "# calibration tools\n")
  ; ("tools/dataset/README.md", lit "# dataset tools\n")
  ; ("tools/labeling/README.md", lit "# labeling tools\n")
  ].

(** Argument of the fifth [REPO_STRUCTURE.update]: Tests skeleton. *)
Definition tests_entries : list (string * string) :=
  [ ("tests/contract/README.md", lit "# contract tests\n")
  ; ("tests/integration/README.md", lit "# integration tests\n")
  ; ("tests/sim/README.md", lit "# sim regression tests\n")
  ; ("tests/e2e/README.md", lit "# end-to-end tests\n")
  ].

(** The two keys the first loop derives from a service name. *)
Definition service_src (svc : string) : string :=
  "backend/services/" +:+ svc +:+ "/src/README.md".
Definition service_tests (svc : string) : string :=
  "backend/services/" +:+ svc +:+ "/tests/README.md".

(** The bodies of the three [for] loops that add generated entries. *)
Definition add_service (d : dict) (svc : string) : dict :=
  let d := dict_set d (service_src svc) ("# " +:+ svc +:+ nl) in
  dict_set d (service_tests svc) ("# tests for " +:+ svc +:+ nl).

Definition add_feature (d : dict) (feat : string) : dict :=
  dict_set d ("apps/operator_flutter/lib/features/" +:+ feat +:+ "/README.md")
             ("# " +:+ feat +:+ nl).

Definition add_model (d : dict) (m : string) : dict :=
  dict_set d ("ml/models/" +:+ m +:+ "/README.md") ("# " +:+ m +:+ nl).

(** The module-level statements that build [REPO_STRUCTURE], in program
    order. *)
Definition REPO_STRUCTURE : dict :=
  let d := dict_literal literal_base in
  let d := foldl add_service d SERVICE_NAMES in
  let d := dict_update d flutter_entries in
  let d := foldl add_feature d FLUTTER_FEATURES in
  let d := dict_set d "apps/operator_flutter/test/README.md" (lit "# tests\n") in
  let d := dict_update d ml_entries in
  let d := foldl add_model d ML_MODELS in
  let d := dict_update d simulation_entries in
  let d := dict_update d tools_entries in
  dict_update d tests_entries.

(** Every assignment [REPO_STRUCTURE[k] = v] the construction performs,
    in program order (the items of a display or of an [update] argument
    count as one assignment each). *)
Definition service_assignments (svc : string) : list (string * string) :=
  [ (service_src svc, "# " +:+ svc +:+ nl)
  ; (service_tests svc, "# tests for " +:+ svc +:+ nl) ].

Definition feature_assignments (feat : string) : list (string * string) :=
  [ ("apps/operator_flutter/lib/features/" +:+ feat +:+ "/README.md", "# " +:+ feat +:+ nl) ].

Definition model_assignments (m : string) : list (string * string) :=
  [ ("ml/models/" +:+ m +:+ "/README.md", "# " +:+ m +:+ nl) ].

Definition assignments : list (string * string) :=
  literal_base
  ++ (SERVICE_NAMES ≫= service_assignments)
  ++ flutter_entries
  ++ (FLUTTER_FEATURES ≫= feature_assignments)
  ++ [ ("apps/operator_flutter/test/README.md", lit "# tests\n") ]
  ++ ml_entries
  ++ (ML_MODELS ≫= model_assignments)
  ++ simulation_entries
  ++ tools_entries
  ++ tests_entries.

(** The number of assignments in a sequence that hit a key already
    present, i.e. that replace a value instead of adding an item. *)
Fixpoint replacements (d : dict) (items : list (string * string)) : nat :=
  match items with
  | [] => 0
  | (k, v) :: items' =>
      (if dict_has d k then 1 else 0) + replacements (dict_set d k v) items'
  end.

(** ** Paths

    A path is the list of its components, innermost first: the head is
    the final component and the tail is [path.parent].  The empty list is
    the root of the file system, which is its own parent. *)
Definition path : Type := list string.

(** The components of a relative path string, outermost first.  As
    [pathlib] does, empty components and [.] components are dropped. *)
Fixpoint split_slash (s : string) : list string :=
  match s with
  | EmptyString => [EmptyString]
  | String c s' =>
      if Ascii.eqb c "/" then EmptyString :: split_slash s'
      else match split_slash s' with
           | [] => [String c EmptyString]
           | x :: xs => String c x :: xs
           end
  end.

Definition parts (s : string) : list string :=
  filter (λ x, x ≠ EmptyString ∧ x ≠ ".") (split_slash s).

(** [root / rel]: an absolute right operand replaces the left one. *)
Definition joinpath (root : path) (rel : string) : path :=
  if is_prefix_of "/" rel then rev (parts rel) else rev (parts rel) ++ root.

(** [str(path)] for an absolute path. *)
Definition path_str (p : path) : string :=
  match p with
  | [] => "/"
  | _ => foldr (λ c acc, acc +:+ "/" +:+ c) EmptyString p
  end.

(** ** The file system *)

(** A directory holds its entries by name and an entry is held by one
    directory only: there is one path to every file and directory.  Hard
    links and symbolic links have no counterpart here. *)
Inductive node : Type :=
  | File (mode : N) (content : string)
  | Dir (mode : N) (children : gmap string node).

(** Why a platform may refuse a system call. *)
Inductive hazard : Type := PermissionDenied | ReadOnly | NoSpace | IOFailure.

(** The exceptions the script can meet.  The first four come from the
    shape of the tree; [OSError h] is a refusal by the platform. *)
Inductive exn : Type :=
  | FileNotFoundError
  | NotADirectoryError
  | FileExistsError
  | IsADirectoryError
  | OSError (h : hazard).

Inductive result (A : Type) : Type :=
  | Ok (a : A)
  | Raise (e : exn).
Arguments Ok {A} a.
Arguments Raise {A} e.

(** Path resolution, as every system call does it: a missing component
    is ENOENT, a regular file used as a directory is ENOTDIR. *)
Definition child (c : string) (d : node) : result node :=
  match d with
  | Dir _ ch => match ch !! c with
                | Some n => Ok n
                | None => Raise FileNotFoundError
                end
  | File _ _ => Raise NotADirectoryError
  end.

Fixpoint resolve (fs : node) (p : path) : result node :=
  match p with
  | [] => Ok fs
  | c :: par => match resolve fs par with
                | Ok d => child c d
                | Raise e => Raise e
                end
  end.

(** Replace the node at [p], if there is one, by its image under [f]. *)
Definition on_child (c : string) (f : node → node) (d : node) : node :=
  match d with
  | Dir m ch => Dir m (alter f c ch)
  | File _ _ => d
  end.

Fixpoint modify (f : node → node) (p : path) (fs : node) : node :=
  match p with
  | [] => f fs
  | c :: par => modify (on_child c f) par fs
  end.

Definition put_child (c : string) (n : node) (d : node) : node :=
  match d with
  | Dir m ch => Dir m (<[c := n]> ch)
  | File _ _ => d
  end.

Definition set_data (data : string) (n : node) : node :=
  match n with
  | File m _ => File m data
  | Dir _ _ => n
  end.

Definition set_mode (m : N) (n : node) : node :=
  match n with
  | File _ s => File m s
  | Dir _ ch => Dir m ch
  end.

(** What [os.stat] and a read of the whole file show of a node. *)
Inductive info : Type :=
  | IsFile (mode : N) (content : string)
  | IsDir (mode : N).

Definition shallow (n : node) : info :=
  match n with
  | File m s => IsFile m s
  | Dir m _ => IsDir m
  end.

Definition stat (fs : node) (p : path) : option info :=
  match resolve fs p with
  | Ok n => Some (shallow n)
  | Raise _ => None
  end.

Definition path_exists (fs : node) (p : path) : bool :=
  match stat fs p with Some _ => true | None => false end.

Definition path_is_dir (fs : node) (p : path) : bool :=
  match stat fs p with Some (IsDir _) => true | _ => false end.

Definition path_is_file (fs : node) (p : path) : bool :=
  match stat fs p with Some (IsFile _ _) => true | _ => false end.

Definition read_bytes (fs : node) (p : path) : option string :=
  match stat fs p with Some (IsFile _ s) => Some s | _ => None end.

Definition mode_of (fs : node) (p : path) : option N :=
  match stat fs p with
  | Some (IsFile m _) | Some (IsDir m) => Some m
  | None => None
  end.

(** ** The platform

    [fault] says which system calls the platform refuses, and why;
    [umask] is the file mode creation mask; [linesep] is [os.linesep],
    by which text-mode output replaces every line feed. *)
Inductive syscall : Type :=
  | SysMkdir (p : path)
  | SysOpen (p : path)
  | SysWrite (p : path)
  | SysChmod (p : path).

Record platform : Type := {
  fault : syscall → option hazard;
  umask : N;
  linesep : string;
}.

(** A three-digit octal permission mode, as in [0o755]. *)
Definition octal (u g o : N) : N := (u * 64 + g * 8 + o)%N.

Definition dir_mode (env : platform) : N := N.ldiff (octal 7 7 7) (umask env).
Definition file_mode (env : platform) : N := N.ldiff (octal 6 6 6) (umask env).

Fixpoint translate_newlines (sep s : string) : string :=
  match s with
  | EmptyString => EmptyString
  | String c s' =>
      if Ascii.eqb c LF then sep +:+ translate_newlines sep s'
      else String c (translate_newlines sep s')
  end.

(** ** Effects: a state and exception monad over the file system *)
Definition io (A : Type) : Type := node → result A * node.

Definition ret {A} (a : A) : io A := λ fs, (Ok a, fs).
Definition raise {A} (e : exn) : io A := λ fs, (Raise e, fs).

Definition bind {A B} (m : io A) (k : A → io B) : io B :=
  λ fs, match m fs with
        | (Ok a, fs') => k a fs'
        | (Raise e, fs') => (Raise e, fs')
        end.

(** [try: m except OSError as e: h e] *)
Definition catch {A} (m : io A) (h : exn → io A) : io A :=
  λ fs, match m fs with
        | (Ok a, fs') => (Ok a, fs')
        | (Raise e, fs') => h e fs'
        end.

Notation "x <- m ;; k" := (bind m (λ x, k))
  (at level 100, m at next level, right associativity).
Notation "m ;; k" := (bind m (λ _, k))
  (at level 100, right associativity).

(** [for x in l: body x] *)
Fixpoint for_each {A} (l : list A) (body : A → io unit) : io unit :=
  match l with
  | [] => ret tt
  | x :: l' => body x ;; for_each l' body
  end.

(** ** System calls and the [pathlib] methods built on them *)

Definition refused (env : platform) (c : syscall) (k : io unit) : io unit :=
  match fault env c with
  | Some h => raise (OSError h)
  | None => k
  end.

(** [os.mkdir(p)] *)
Definition os_mkdir (env : platform) (p : path) : io unit :=
  refused env (SysMkdir p) (λ fs,
    match p with
    | [] => (Raise FileExistsError, fs)
    | c :: par =>
        match resolve fs par with
        | Raise e => (Raise e, fs)
        | Ok d =>
            match child c d with
            | Ok _ => (Raise FileExistsError, fs)
            | Raise NotADirectoryError => (Raise NotADirectoryError, fs)
            | Raise _ => (Ok tt, modify (put_child c (Dir (dir_mode env) ∅)) par fs)
            end
        end
    end).

Definition is_dir (p : path) : io bool := λ fs, (Ok (path_is_dir fs p), fs).
Definition exists_ (p : path) : io bool := λ fs, (Ok (path_exists fs p), fs).

(** The [except OSError] arm of [Path.mkdir]. *)
Definition mkdir_oserror (exist_ok : bool) (p : path) (e : exn) : io unit :=
  d <- is_dir p ;;
  if negb exist_ok || negb d then raise e else ret tt.

(** [p.mkdir(parents=False, exist_ok=exist_ok)] *)
Definition mkdir_single (env : platform) (exist_ok : bool) (p : path) : io unit :=
  catch (os_mkdir env p) (λ e,
    match e with
    | FileNotFoundError => raise e
    | _ => mkdir_oserror exist_ok p e
    end).

(** [p.mkdir(parents=True, exist_ok=exist_ok)] *)
Fixpoint mkdir_parents (env : platform) (exist_ok : bool) (p : path) : io unit :=
  catch (os_mkdir env p) (λ e,
    match e with
    | FileNotFoundError =>
        match p with
        | [] => raise e
        | _ :: par =>
            mkdir_parents env true par ;;
            mkdir_single env exist_ok p
        end
    | _ => mkdir_oserror exist_ok p e
    end).

(** [open(p, 'w')]: create the file, or truncate an existing one. *)
Definition open_w (env : platform) (p : path) : io unit :=
  refused env (SysOpen p) (λ fs,
    match p with
    | [] => (Raise IsADirectoryError, fs)
    | c :: par =>
        match resolve fs par with
        | Raise e => (Raise e, fs)
        | Ok d =>
            match child c d with
            | Ok (Dir _ _) => (Raise IsADirectoryError, fs)
            | Ok (File m _) => (Ok tt, modify (put_child c (File m EmptyString)) par fs)
            | Raise NotADirectoryError => (Raise NotADirectoryError, fs)
            | Raise _ => (Ok tt, modify (put_child c (File (file_mode env) EmptyString)) par fs)
            end
        end
    end).

(** The write to the file just opened. *)
Definition write_data (env : platform) (p : path) (data : string) : io unit :=
  refused env (SysWrite p) (λ fs,
    (Ok tt, modify (set_data data) p fs)).

(** [p.write_text(content, encoding=utf-8)] *)
Definition write_text (env : platform) (p : path) (content : string) : io unit :=
  open_w env p ;;
  write_data env p (translate_newlines (linesep env) content).

(** [p.chmod(mode)] *)
Definition chmod (env : platform) (p : path) (mode : N) : io unit :=
  refused env (SysChmod p) (λ fs,
    match resolve fs p with
    | Ok _ => (Ok tt, modify (set_mode mode) p fs)
    | Raise e => (Raise e, fs)
    end).

(** ** The script *)

Definition ensure_parent_dir (env : platform) (p : path) : io unit :=
  mkdir_parents env true (tail p).

Definition write_file (env : platform) (p : path) (content : string)
    (overwrite : bool) : io unit :=
  ensure_parent_dir env p ;;
  e <- exists_ p ;;
  if e && negb overwrite then ret tt
  else write_text env p content.

(** The body of the loop of [chmod_executables], for one [rp]. *)
Definition chmod_executable (env : platform) (root : path) (rp : string) : io unit :=
  let p := joinpath root rp in
  e <- exists_ p ;;
  if e then catch (chmod env p (octal 7 5 5)) (λ _, ret tt)
  else ret tt.

Definition chmod_executables (env : platform) (root : path)
    (relpaths : list string) : io unit :=
  for_each relpaths (chmod_executable env root).

(** The loop of [main] over [REPO_STRUCTURE.items()]. *)
Definition write_all (env : platform) (root : path)
    (items : list (string * string)) (overwrite : bool) : io unit :=
  for_each items (λ '(rel, content),
    write_file env (joinpath root rel) content overwrite).

(** The list [executables] local to [main]: shell scripts and hooks. *)
Definition executables : list string :=
  [ ".githooks/commit-msg"
  ; ".githooks/pre-commit"
  ; ".githooks/pre-push"
  ; "vehicle/scripts/run_vehicle.sh"
  ; "vehicle/scripts/record_bag.sh"
  ; "vehicle/scripts/replay_bag.sh"
  ; "vehicle/scripts/health_check.sh"
  ; "vehicle/scripts/update_models.sh"
  ; "infra/codeserver/entrypoint.sh"
  ; "infra/codeserver/init-repo.sh"
  ; "tools/dev/setup-hooks.sh"
  ; "tools/dev/setup-codeserver.sh"
  ; "tools/dev/format.sh"
  ; "tools/dev/generate-clients.sh"
  ; "tools/git/_commit_tag.sh"
  ; "tools/git/anmol"
  ; "tools/git/jaspinder"
  ; "tools/git/chris"
  ; "tools/git/prabh"
  ].

Definition str_of_nat (n : nat) : string :=
  NilEmpty.string_of_uint (Nat.to_uint n).

(** The lines [main] prints once the scaffold is complete. *)
Definition summary (root : path) : list string :=
  let created_files := length (dict_keys REPO_STRUCTURE) in
  [ "✅ Scaffold complete at: " +:+ path_str root
  ; "📄 Files listed in scaffold: " +:+ str_of_nat created_files
  ; "Next:"
  ; "  cd " +:+ path_str root
  ; "  git init"
  ; "  ./tools/dev/setup-hooks.sh   # enforce commit style" ].

(** [main], with the parsed arguments as parameters: [root] is the
    resolved [--root], [overwrite] the flag.  The value returned is what
    the run prints on standard output. *)
Definition main (env : platform) (root : path) (overwrite : bool) : io (list string) :=
  mkdir_parents env true root ;;
  write_all env root (dict_items REPO_STRUCTURE) overwrite ;;
  chmod_executables env root executables ;;
  ret (summary root).

(** The exit status of the interpreter: an exception that reaches the
    top level is reported on standard error and the status is 1. *)
Definition exit_status {A} (r : result A) : Z :=
  match r with
  | Ok _ => 0
  | Raise _ => 1
  end.

Definition run (env : platform) (root : path) (overwrite : bool) (fs : node) : Z * node :=
  let (r, fs') := main env root overwrite fs in (exit_status r, fs').

(** ** Vocabulary of the statements *)

(** A regular file, or a directory with no entry. *)
Definition is_leaf (n : node) : Prop :=
  match n with
  | File _ _ => True
  | Dir _ ch => ch = ∅
  end.

(** [fs'] is [fs] with the entry at [p] set to [i], every other path
    showing what it showed. *)
Definition updates (fs fs' : node) (p : path) (i : option info) : Prop :=
  ∀ q, stat fs' q = if decide (q = p) then i else stat fs q.

(** [fs'] is [fs] with some missing ancestors of [p] (or [p] itself)
    created as directories, and nothing else changed. *)
Definition mkdirs_rel (env : platform) (p : path) (fs fs' : node) : Prop :=
  ∀ q, stat fs' q = stat fs q ∨
       (stat fs q = None ∧ q `suffix_of` p ∧
        stat fs' q = Some (IsDir (dir_mode env))).

(** The platform refuses no [mkdir]. *)
Definition mkdir_allowed (env : platform) : Prop :=
  ∀ p, fault env (SysMkdir p) = None.

(** An entry with its mode, or its bytes, replaced. *)
Definition with_mode (m : N) (i : info) : info :=
  match i with
  | IsFile _ s => IsFile m s
  | IsDir _ => IsDir m
  end.

Definition with_data (data : string) (i : info) : info :=
  match i with
  | IsFile m _ => IsFile m data
  | IsDir m => IsDir m
  end.

(** Both regular files, or both directories. *)
Definition same_kind (i i' : info) : Prop :=
  match i, i' with
  | IsFile _ _, IsFile _ _ | IsDir _, IsDir _ => True
  | _, _ => False
  end.

(** Every entry is still there, with its kind. *)
Definition kinds_kept (fs fs' : node) : Prop :=
  ∀ q i, stat fs q = Some i → ∃ i', stat fs' q = Some i' ∧ same_kind i i'.

(** Every entry is still there, exactly as it was. *)
Definition entries_kept (fs fs' : node) : Prop :=
  ∀ q i, stat fs q = Some i → stat fs' q = Some i.

(** The same entries, up to their permission bits. *)
Definition modes_changed (fs fs' : node) : Prop :=
  ∀ q, with_mode 0 <$> stat fs' q = with_mode 0 <$> stat fs q.

(** [m] relates the state it starts from to the state it ends in,
    whether it returns or raises. *)
Definition io_rel {A} (R : relation node) (m : io A) : Prop :=
  ∀ fs r fs', m fs = (r, fs') → R fs fs'.

(** The platform refuses no [mkdir], no [open] and no write. *)
Definition writes_allowed (env : platform) : Prop :=
  mkdir_allowed env ∧
  ∀ p, fault env (SysOpen p) = None ∧ fault env (SysWrite p) = None.

(** What [write_file] leaves at its target, given what was there. *)
Definition written (env : platform) (overwrite : bool) (content : string)
    (old : option info) : option info :=
  let data := translate_newlines (linesep env) content in
  match old with
  | None => Some (IsFile (file_mode env) data)
  | Some (IsFile m s) => Some (IsFile m (if overwrite then data else s))
  | Some (IsDir m) => Some (IsDir m)
  end.

(** The loop over targets that are paths already. *)
Definition write_targets (env : platform) (T : list (path * string))
    (overwrite : bool) : io unit :=
  for_each T (λ '(p, content), write_file env p content overwrite).

(** The items of the table, with their keys joined to the root. *)
Definition targets (root : path) (items : list (string * string)) :
    list (path * string) :=
  (λ '(rel, content), (joinpath root rel, content)) <$> items.

(** The targets are distinct, none is the root of the file system, and
    none lies below another. *)
Definition targets_ok (T : list path) : Prop :=
  NoDup T ∧ Forall (λ p, p ≠ []) T ∧
  Forall (λ p, Forall (λ p', p `suffix_of` p' → p = p') T) T.

(** Nothing in [fs] is in the way of the targets: no directory at a
    target, no regular file at a proper ancestor of a target. *)
Definition clear_for (T : list path) (fs : node) : Prop :=
  ∀ p, p ∈ T →
    path_is_dir fs p = false ∧
    ∀ q, q `suffix_of` p → q ≠ p → path_is_file fs q = false.

(** The path a relative key denotes, innermost component first. *)
Definition rel_path (rel : string) : path := rev (parts rel).

(** Every key is a relative path, and the paths they denote are distinct,
    non-empty and not nested in one another. *)
Definition table_ok (items : list (string * string)) : Prop :=
  Forall (λ k, is_prefix_of "/" k = false) items.*1 ∧
  targets_ok (rel_path <$> items.*1).

(** An empty root: the directory [root] exists and has no entry. *)
Definition root_empty (fs : node) (root : path) : Prop :=
  ∃ m, resolve fs root = Ok (Dir m ∅).

(** The root can be created, or is there: no regular file is in the way. *)
Definition root_reachable (fs : node) (root : path) : Prop :=
  ∀ q, q `suffix_of` root → path_is_file fs q = false.

(** The proper ancestors of a path, nearest first, and the check of
    [clear_for] by computation. *)
Fixpoint ancestors (p : path) : list path :=
  match p with
  | [] => []
  | _ :: par => par :: ancestors par
  end.

Definition clear_forb (T : list path) (fs : node) : bool :=
  forallb (λ p, negb (path_is_dir fs p) &&
                forallb (λ q, negb (path_is_file fs q)) (ancestors p)) T.

(** The three ways the writer stage of [main] can fail: creating the
    root raises; or, the entries before [(rel, content)] having been
    written, creating the parent directory of that entry raises, or
    writing its file raises. *)
Inductive fatal_failure (env : platform) (root : path) (overwrite : bool)
    (fs : node) (e : exn) (fs' : node) : Prop :=
  | root_mkdir_fails :
      mkdir_parents env true root fs = (Raise e, fs') →
      fatal_failure env root overwrite fs e fs'
  | parent_mkdir_fails pre rel content post fs0 fs1 :
      dict_items REPO_STRUCTURE = pre ++ (rel, content) :: post →
      mkdir_parents env true root fs = (Ok tt, fs0) →
      write_all env root pre overwrite fs0 = (Ok tt, fs1) →
      ensure_parent_dir env (joinpath root rel) fs1 = (Raise e, fs') →
      fatal_failure env root overwrite fs e fs'
  | file_write_fails pre rel content post fs0 fs1 fs2 :
      dict_items REPO_STRUCTURE = pre ++ (rel, content) :: post →
      mkdir_parents env true root fs = (Ok tt, fs0) →
      write_all env root pre overwrite fs0 = (Ok tt, fs1) →
      ensure_parent_dir env (joinpath root rel) fs1 = (Ok tt, fs2) →
      path_exists fs2 (joinpath root rel) && negb overwrite = false →
      write_text env (joinpath root rel) content fs2 = (Raise e, fs') →
      fatal_failure env root overwrite fs e fs'.

(** Two platforms that differ at most in what they answer to [chmod]. *)
Definition agree_off_chmod (env env' : platform) : Prop :=
  umask env = umask env' ∧ linesep env = linesep env' ∧
  ∀ c, (∀ p, c ≠ SysChmod p) → fault env c = fault env' c.

(** ** Sample states *)

(** A POSIX platform that refuses nothing, with the usual mask. *)
Definition posix : platform :=
  {| fault := λ _, None; umask := octal 0 2 2; linesep := nl |}.

(** [/home/asv], and a file system in which it is an empty directory. *)
Definition sample_root : path := ["asv"; "home"].

Definition under_sample_root (ch : gmap string node) : node :=
  Dir (octal 7 5 5) {[ "home" := Dir (octal 7 5 5) {[ "asv" := Dir (octal 7 5 5) ch ]} ]}.

Definition fresh_fs : node := under_sample_root ∅.

(** The same, with a [README.md] of the user's own in the root. *)
Definition customised_fs : node :=
  under_sample_root {[ "README.md" := File (octal 6 0 0) "my own notes" ]}.

(** The same, with a directory where [README.md] should go. *)
Definition obstructed_fs : node :=
  under_sample_root {[ "README.md" := Dir (octal 7 5 5) ∅ ]}.

(** A platform whose disk is full when [LICENSE] is written. *)
Definition disk_full : platform :=
  {| fault := λ c, match c with
                   | SysWrite p =>
                       if decide (p = joinpath sample_root "LICENSE")
                       then Some NoSpace else None
                   | _ => None
                   end;
     umask := octal 0 2 2; linesep := nl |}.

(** A platform whose line separator is carriage return, line feed. *)
Definition crlf : platform :=
  {| fault := λ _, None; umask := octal 0 0 0;
     linesep := String (ascii_of_nat 13) nl |}.

(** A platform without permission bits: every [chmod] is refused. *)
Definition no_chmod : platform :=
  {| fault := λ c, match c with
                   | SysChmod _ => Some PermissionDenied
                   | _ => None
                   end;
     umask := octal 0 2 2; linesep := nl |}.

(** ** Vocabulary of the further properties *)

(** Off the paths in [W], [fs'] shows what [fs] showed, except that a
    missing path in [D] may have become a directory. *)
Definition changes_only (env : platform) (W D : path → Prop)
    (fs fs' : node) : Prop :=
  ∀ q, ¬ W q →
       stat fs' q = stat fs q ∨
       (stat fs q = None ∧ D q ∧ stat fs' q = Some (IsDir (dir_mode env))).

(** Every regular file is still a regular file, with the permission bits
    it had, unless it is one of [marked] and now has the bits [m755]. *)
Definition file_modes_kept (marked : list path) (fs fs' : node) : Prop :=
  ∀ q m s, stat fs q = Some (IsFile m s) →
    ∃ m' s', stat fs' q = Some (IsFile m' s') ∧
             (m' = m ∨ (m' = octal 7 5 5 ∧ q ∈ marked)).


Definition rootless_fs : node :=
  Dir (octal 7 5 5) {[ "home" := Dir (octal 7 5 5) ∅ ]}.

(** A root that holds a file the table does not list, and a hook that
    is there already with private permission bits. *)
Definition untracked_fs : node :=
  Dir (octal 7 5 5)
    {[ "home" := Dir (octal 7 5 5)
         {[ "asv" := Dir (octal 7 5 5)
              {[ "notes.txt" := File (octal 6 0 0) "to do";
                 ".githooks" := Dir (octal 7 0 0)
                   {[ "pre-push" := File (octal 6 0 0) "exit 1" ]} ]} ]} ]}.

(** A platform that refuses every system call that changes something. *)
Definition read_only : platform :=
  {| fault := λ _, Some ReadOnly; umask := octal 0 2 2; linesep := nl |}.

(** Every key of the table exists under [root]. *)
Definition scaffold_complete (fs : node) (root : path) : bool :=
  forallb (λ rel, path_exists fs (joinpath root rel)) (dict_keys REPO_STRUCTURE).

(** * Properties *)

(** ** The definitions at work *)

Example lit_escapes :
  lit "a\n\t\q\(b\c" =
    String "a" (String LF (String TAB (String DQUOTE
      (String BACKSLASH (String "(" (String "b" (String BACKSLASH "c"))))))).
Proof. reflexivity. Qed.

Example lit_backslash : lit "(\\([a-z]+\\))?" = "(\([a-z]+\))?".
Proof. reflexivity. Qed.

Example dict_set_new : dict_set [("a", "1")] "b" "2" = [("a", "1"); ("b", "2")].
Proof. reflexivity. Qed.

Example dict_set_present :
  dict_set [("a", "1"); ("b", "2")] "a" "3" = [("a", "3"); ("b", "2")].
Proof. reflexivity. Qed.

Example parts_drops_empty_and_dot : parts "a/b//c/./d" = ["a"; "b"; "c"; "d"].
Proof. reflexivity. Qed.

Example joinpath_relative_key :
  joinpath sample_root "tools/git/anmol" = ["anmol"; "git"; "tools"; "asv"; "home"].
Proof. reflexivity. Qed.

Example path_str_sample_root : path_str sample_root = "/home/asv".
Proof. reflexivity. Qed.

Example summary_count :
  summary sample_root !! 1 = Some "📄 Files listed in scaffold: 209".
Proof. vm_compute. reflexivity. Qed.

Example mkdir_parents_creates_ancestors :
  let '(r, fs) := mkdir_parents posix true ["c"; "b"; "a"] (Dir (octal 7 5 5) ∅) in
  r = Ok tt ∧
  stat fs ["a"] = Some (IsDir (octal 7 5 5)) ∧
  stat fs ["b"; "a"] = Some (IsDir (octal 7 5 5)) ∧
  stat fs ["c"; "b"; "a"] = Some (IsDir (octal 7 5 5)).
Proof. vm_compute. done. Qed.

Example mkdir_parents_through_file :
  (mkdir_parents posix true (joinpath sample_root "README.md/x") customised_fs).1
    = Raise NotADirectoryError.
Proof. vm_compute. reflexivity. Qed.

Example text_mode_on_crlf :
  read_bytes (write_text crlf ["notes"] (lit "a\nb\n") (Dir (octal 7 5 5) ∅)).2
    ["notes"]
    = Some (String "a" (String (ascii_of_nat 13) (String LF
             (String "b" (String (ascii_of_nat 13) (String LF EmptyString)))))).
Proof. vm_compute. reflexivity. Qed.

Example run_fresh_modes :
  let fs := (run posix sample_root false fresh_fs).2 in
  mode_of fs (joinpath sample_root "tools/git/anmol") = Some (octal 7 5 5) ∧
  mode_of fs (joinpath sample_root "Makefile") = Some (octal 6 4 4).
Proof. vm_compute. done. Qed.

(** ** Resolution and update *)

Lemma resolve_app fs (r p : path) :
  resolve fs (r ++ p) =
    match resolve fs p with Ok n => resolve n r | Raise e => Raise e end.
Proof.
  induction r as [|c r IH]; simpl.
  - by destruct (resolve fs p).
  - rewrite IH. by destruct (resolve fs p).
Qed.

Lemma child_on_child c f d :
  child c (on_child c f d) =
    match child c d with Ok n => Ok (f n) | Raise e => Raise e end.
Proof.
  destruct d as [m s|m ch]; simpl; [done|].
  rewrite lookup_alter_eq. by destruct (ch !! c).
Qed.

Lemma child_on_child_ne c c' f d :
  c ≠ c' → child c' (on_child c f d) = child c' d.
Proof.
  intros Hne. destruct d as [m s|m ch]; simpl; [done|].
  by rewrite lookup_alter_ne.
Qed.

Lemma shallow_on_child c f d : shallow (on_child c f d) = shallow d.
Proof. by destruct d. Qed.

Lemma resolve_modify_same f p fs :
  resolve (modify f p fs) p =
    match resolve fs p with Ok n => Ok (f n) | Raise e => Raise e end.
Proof.
  revert f. induction p as [|c par IH]; intros f; simpl; [done|].
  rewrite IH. destruct (resolve fs par); [|done].
  apply child_on_child.
Qed.

Lemma resolve_modify_below f p r fs :
  resolve (modify f p fs) (r ++ p) =
    match resolve fs p with Ok n => resolve (f n) r | Raise e => Raise e end.
Proof.
  rewrite resolve_app, resolve_modify_same. by destruct (resolve fs p).
Qed.

Lemma modify_id f p fs :
  (∀ n, resolve fs p = Ok n → f n = n) → modify f p fs = fs.
Proof.
  revert f. induction p as [|c par IH]; intros f Hf; simpl; [by apply Hf|].
  apply IH. intros d Hd. destruct d as [m s|m ch]; simpl; [done|].
  f_equal. apply alter_id. intros x Hx. apply Hf. simpl.
  rewrite Hd. simpl. by rewrite Hx.
Qed.

Lemma shallow_modify f p fs :
  (∀ n, shallow (f n) = shallow n) → shallow (modify f p fs) = shallow fs.
Proof.
  revert f. induction p as [|c par IH]; intros f Hf; simpl; [done|].
  apply IH. intros n. apply shallow_on_child.
Qed.

(** A path that does not end in [c] sees nothing of a change to the
    child [c]. *)
Lemma stat_on_child c f d (r : path) :
  ¬ [c] `suffix_of` r → stat (on_child c f d) r = stat d r.
Proof.
  intros Hr. unfold stat. destruct r as [|c' r' _] using rev_ind; simpl.
  - by rewrite shallow_on_child.
  - assert (c ≠ c') as Hne.
    { intros ->. apply Hr. by apply suffix_app_r. }
    rewrite !(resolve_app _ r' [c']). simpl.
    by rewrite child_on_child_ne.
Qed.

Lemma stat_modify_other f p q fs :
  ¬ p `suffix_of` q → stat (modify f p fs) q = stat fs q.
Proof.
  revert f. induction p as [|c par IH]; intros f Hq; simpl.
  - destruct Hq. apply suffix_nil.
  - destruct (decide (par `suffix_of` q)) as [[r ->]|Hn]; [|by apply IH].
    assert (¬ [c] `suffix_of` r) as Hr.
    { intros [r' ->]. apply Hq. exists r'. by rewrite <-app_assoc. }
    unfold stat. rewrite resolve_modify_below, resolve_app.
    destruct (resolve fs par) as [d|e]; [|done].
    by apply (stat_on_child c f d r).
Qed.

Lemma resolve_leaf n (r : path) :
  is_leaf n → r ≠ [] → stat n r = None.
Proof.
  intros Hn Hr. unfold stat.
  destruct r as [|c r' _] using rev_ind; [done|].
  rewrite resolve_app. simpl.
  destruct n as [m s|m ch]; simpl in *; [done|].
  subst ch. by rewrite lookup_empty.
Qed.

Lemma cons_not_self {A} (x : A) (l : list A) : l ≠ x :: l.
Proof. intros H. apply (f_equal length) in H. simpl in H. lia. Qed.

(** Putting a leaf at a place that held no directory changes that place
    only. *)
Lemma updates_put c n par fs m ch :
  resolve fs par = Ok (Dir m ch) →
  match ch !! c with Some (Dir _ _) => False | _ => True end →
  is_leaf n →
  updates fs (modify (put_child c n) par fs) (c :: par) (Some (shallow n)).
Proof.
  intros Hpar Hold Hn q.
  destruct (decide (par `suffix_of` q)) as [[r ->]|Hq].
  - unfold stat at 1. rewrite resolve_modify_below, Hpar. simpl.
    destruct r as [|c' r' _] using rev_ind.
    + simpl. rewrite decide_False by apply cons_not_self.
      unfold stat. by rewrite Hpar.
    + rewrite resolve_app. simpl.
      destruct (decide (c' = c)) as [->|Hne].
      * rewrite lookup_insert_eq.
        destruct r' as [|c'' r'' _] using rev_ind.
        -- simpl. by rewrite decide_True.
        -- rewrite decide_False.
           2:{ rewrite <-!app_assoc. simpl. intros H.
               apply (f_equal length) in H. rewrite length_app in H.
               simpl in H. lia. }
           pose proof (resolve_leaf n (r'' ++ [c'']) Hn) as Hleaf.
           unfold stat in Hleaf. rewrite Hleaf by by destruct r''.
           unfold stat. rewrite <-app_assoc, resolve_app. simpl.
           rewrite Hpar. simpl.
           destruct (ch !! c) as [[m' s'|m' ch']|]; [|done|done].
           symmetry. rewrite resolve_app. done.
      * rewrite lookup_insert_ne by done.
        rewrite decide_False.
        2:{ rewrite <-app_assoc. simpl. intros H.
            destruct r' as [|? r']; simpl in H; [naive_solver|].
            apply (f_equal length) in H. simpl in H.
            rewrite length_app in H. simpl in H. lia. }
        unfold stat. rewrite <-app_assoc, resolve_app. simpl. rewrite Hpar.
        simpl. by destruct (ch !! c').
  - rewrite stat_modify_other by done.
    rewrite decide_False; [done|].
    intros ->. apply Hq. by apply suffix_cons_r.
Qed.

Lemma resolve_raise fs p e :
  resolve fs p = Raise e → e = FileNotFoundError ∨ e = NotADirectoryError.
Proof.
  induction p as [|c par IH]; simpl; [done|].
  destruct (resolve fs par) as [[m s|m ch]|e']; simpl.
  - naive_solver.
  - destruct (ch !! c); naive_solver.
  - intros [= ->]. by apply IH.
Qed.

(** ENOTDIR means that a regular file sits on the way. *)
Lemma resolve_notdir fs p :
  resolve fs p = Raise NotADirectoryError →
  ∃ q, q `suffix_of` p ∧ q ≠ p ∧ path_is_file fs q = true.
Proof.
  induction p as [|c par IH]; simpl; [done|].
  destruct (resolve fs par) as [[m s|m ch]|e'] eqn:Hpar; simpl.
  - intros _. exists par. split_and!.
    + by apply suffix_cons_r.
    + apply cons_not_self.
    + unfold path_is_file, stat. by rewrite Hpar.
  - by destruct (ch !! c).
  - intros [= ->]. destruct IH as (q & Hq & Hne & Hf); [done|].
    exists q. split_and!; [by apply suffix_cons_r| |done].
    intros ->. apply suffix_length in Hq. simpl in Hq. lia.
Qed.

(** What exists lies in a directory. *)
Lemma stat_parent fs c par i :
  stat fs (c :: par) = Some i → path_is_dir fs par = true.
Proof.
  unfold path_is_dir, stat. simpl.
  by destruct (resolve fs par) as [[m s|m ch]|e'].
Qed.

Lemma stat_ancestor fs (r q : path) i :
  stat fs (r ++ q) = Some i → r ≠ [] → path_is_dir fs q = true.
Proof.
  revert i. induction r as [|c r IH]; intros i; [done|]. simpl. intros Hi _.
  apply stat_parent in Hi. destruct r as [|c' r']; [done|].
  unfold path_is_dir in Hi.
  destruct (stat fs ((c' :: r') ++ q)) as [i'|] eqn:Hs; [|done].
  by apply (IH i').
Qed.

Lemma path_is_dir_resolve fs p :
  path_is_dir fs p = true ↔ ∃ m ch, resolve fs p = Ok (Dir m ch).
Proof.
  unfold path_is_dir, stat.
  destruct (resolve fs p) as [[m s|m ch]|e]; naive_solver.
Qed.

Lemma path_is_dir_stat fs p :
  path_is_dir fs p = true ↔ ∃ m, stat fs p = Some (IsDir m).
Proof.
  unfold path_is_dir. destruct (stat fs p) as [[]|]; naive_solver.
Qed.

Lemma path_is_file_stat fs p :
  path_is_file fs p = true ↔ ∃ m s, stat fs p = Some (IsFile m s).
Proof.
  unfold path_is_file. destruct (stat fs p) as [[]|]; naive_solver.
Qed.

Lemma path_exists_stat fs p :
  path_exists fs p = true ↔ ∃ i, stat fs p = Some i.
Proof.
  unfold path_exists. destruct (stat fs p); naive_solver.
Qed.

(** ** The system calls *)

Ltac unfold_io :=
  unfold refused, bind, catch, ret, raise, is_dir, exists_ in *.

Lemma os_mkdir_inv env p fs r fs' :
  os_mkdir env p fs = (r, fs') →
  (∃ e, r = Raise e ∧ fs' = fs) ∨
  (r = Ok tt ∧ stat fs p = None ∧
   updates fs fs' p (Some (IsDir (dir_mode env)))).
Proof.
  unfold os_mkdir. unfold_io.
  destruct (fault env (SysMkdir p)); [naive_solver|].
  destruct p as [|c par]; [naive_solver|].
  destruct (resolve fs par) as [d|e] eqn:Hpar; [|naive_solver].
  destruct d as [m s|m ch]; simpl; [naive_solver|].
  destruct (ch !! c) as [n|] eqn:Hc; [naive_solver|].
  intros [= <- <-]. right. split_and!; [done| |].
  - unfold stat. simpl. by rewrite Hpar; simpl; rewrite Hc.
  - apply (updates_put c (Dir (dir_mode env) ∅) par fs m ch); [done| |done].
    by rewrite Hc.
Qed.

Lemma os_mkdir_raise env p fs e fs' :
  os_mkdir env p fs = (Raise e, fs') →
  match e with
  | OSError h => fault env (SysMkdir p) = Some h
  | FileExistsError => path_exists fs p = true
  | NotADirectoryError =>
      ∃ q, q `suffix_of` p ∧ q ≠ p ∧ path_is_file fs q = true
  | FileNotFoundError => ∃ c par, p = c :: par ∧ stat fs par = None
  | IsADirectoryError => False
  end.
Proof.
  unfold os_mkdir. unfold_io.
  destruct (fault env (SysMkdir p)); [naive_solver|].
  destruct p as [|c par]; [naive_solver|].
  destruct (resolve fs par) as [d|e0] eqn:Hpar.
  - destruct d as [m s|m ch]; simpl.
    + intros [= <- <-]. exists par. split_and!.
      * by apply suffix_cons_r.
      * apply cons_not_self.
      * unfold path_is_file, stat. by rewrite Hpar.
    + destruct (ch !! c) as [n|] eqn:Hc; [|done].
      intros [= <- <-]. unfold path_exists, stat. simpl.
      by rewrite Hpar; simpl; rewrite Hc.
  - intros [= <- <-]. destruct (resolve_raise _ _ _ Hpar) as [->| ->].
    + exists c, par. split; [done|]. unfold stat. by rewrite Hpar.
    + destruct (resolve_notdir _ _ Hpar) as (q & Hq & Hne & Hf).
      exists q. split_and!; [by apply suffix_cons_r| |done].
      intros ->. apply suffix_length in Hq. simpl in Hq. lia.
Qed.

Lemma os_mkdir_ok env c par fs :
  fault env (SysMkdir (c :: par)) = None →
  path_is_dir fs par = true →
  stat fs (c :: par) = None →
  ∃ fs', os_mkdir env (c :: par) fs = (Ok tt, fs').
Proof.
  intros Hf Hd Hn. unfold os_mkdir. unfold_io. rewrite Hf.
  apply path_is_dir_resolve in Hd as (m & ch & Hpar). rewrite Hpar. simpl.
  unfold stat in Hn. simpl in Hn. rewrite Hpar in Hn. simpl in Hn.
  destruct (ch !! c); [done|]. eauto.
Qed.

(** ** Directory creation *)

Lemma mkdirs_rel_refl env p fs : mkdirs_rel env p fs fs.
Proof. intros q. by left. Qed.

Lemma mkdirs_rel_trans env p p' fs1 fs2 fs3 :
  p `suffix_of` p' →
  mkdirs_rel env p fs1 fs2 → mkdirs_rel env p' fs2 fs3 →
  mkdirs_rel env p' fs1 fs3.
Proof.
  intros Hp H12 H23 q.
  destruct (H23 q) as [E23|(Hn & Hs & E23)], (H12 q) as [E12|(Hn' & Hs' & E12)].
  - left. congruence.
  - right. split_and!; [done|by etrans|congruence].
  - right. split_and!; [congruence|done..].
  - congruence.
Qed.

Lemma updates_mkdirs_rel env p fs fs' :
  stat fs p = None → updates fs fs' p (Some (IsDir (dir_mode env))) →
  mkdirs_rel env p fs fs'.
Proof.
  intros Hn Hu q. rewrite (Hu q). case_decide as Hq; [|by left].
  subst q. by right.
Qed.

Lemma mkdir_oserror_inv ok p e fs r fs' :
  mkdir_oserror ok p e fs = (r, fs') →
  fs' = fs ∧ (r = Ok tt ∧ path_is_dir fs p = true ∨ r = Raise e).
Proof.
  unfold mkdir_oserror. unfold_io.
  destruct (negb ok || negb (path_is_dir fs p)) eqn:Hb; [naive_solver|].
  apply orb_false_elim in Hb as [_ Hb]. apply negb_false_iff in Hb.
  naive_solver.
Qed.

Lemma mkdir_single_inv env ok p fs r fs' :
  mkdir_single env ok p fs = (r, fs') → mkdirs_rel env p fs fs'.
Proof.
  unfold mkdir_single, catch.
  destruct (os_mkdir env p fs) as [r1 fs1] eqn:Hmk.
  apply os_mkdir_inv in Hmk as [(e & -> & ->)|(-> & Hn & Hu)].
  - destruct e; try (intros H; apply mkdir_oserror_inv in H as [-> _]);
      try (intros [= <- <-]); apply mkdirs_rel_refl.
  - intros [= <- <-]. by apply updates_mkdirs_rel.
Qed.

Lemma mkdir_parents_inv env ok p fs r fs' :
  mkdir_parents env ok p fs = (r, fs') → mkdirs_rel env p fs fs'.
Proof.
  revert ok fs r fs'. induction p as [|c par IH]; intros ok fs r fs'; simpl.
  - unfold catch. destruct (os_mkdir env [] fs) as [r1 fs1] eqn:Hmk.
    apply os_mkdir_inv in Hmk as [(e & -> & ->)|(-> & Hn & Hu)].
    + destruct e; try (intros H; apply mkdir_oserror_inv in H as [-> _]);
        try (intros [= <- <-]); apply mkdirs_rel_refl.
    + intros [= <- <-]. by apply updates_mkdirs_rel.
  - unfold catch at 1.
    destruct (os_mkdir env (c :: par) fs) as [r1 fs1] eqn:Hmk.
    apply os_mkdir_inv in Hmk as [(e & -> & ->)|(-> & Hn & Hu)].
    + destruct e; try (intros H; apply mkdir_oserror_inv in H as [-> _]);
        try apply mkdirs_rel_refl.
      unfold bind.
      destruct (mkdir_parents env true par fs) as [r2 fs2] eqn:Hrec.
      apply IH in Hrec.
      assert (mkdirs_rel env (c :: par) fs fs2) as Hrec'.
      { eapply mkdirs_rel_trans; [|exact Hrec|apply mkdirs_rel_refl].
        by apply suffix_cons_r. }
      destruct r2 as [[]|e2]; [|by intros [= <- <-]].
      intros Hs. apply mkdir_single_inv in Hs.
      by eapply mkdirs_rel_trans; [|exact Hrec'|exact Hs].
    + intros [= <- <-]. by apply updates_mkdirs_rel.
Qed.

(** Creating a directory that is there changes nothing and raises
    nothing, whatever the platform answers. *)
Lemma mkdir_parents_noop env p fs :
  path_is_dir fs p = true → mkdir_parents env true p fs = (Ok tt, fs).
Proof.
  intros Hd.
  assert (catch (os_mkdir env p)
            (λ e, match e with
                  | FileNotFoundError => raise e
                  | _ => mkdir_oserror true p e
                  end) fs = (Ok tt, fs)) as Hgoal.
  { unfold catch. destruct (os_mkdir env p fs) as [r1 fs1] eqn:Hmk.
    pose proof Hmk as Hinv.
    apply os_mkdir_inv in Hinv as [(e & -> & ->)|(-> & Hn & Hu)].
    - apply os_mkdir_raise in Hmk.
      destruct e; unfold mkdir_oserror; unfold_io; rewrite ?Hd; simpl; try done.
      destruct Hmk as (c & par & -> & Hn).
      apply path_is_dir_stat in Hd as [m Hd]. apply stat_parent in Hd.
      apply path_is_dir_stat in Hd as [m' Hd]. congruence.
    - apply path_is_dir_stat in Hd as [m Hd]. congruence. }
  destruct p as [|c par]; simpl; [|].
  - unfold catch in *. destruct (os_mkdir env [] fs) as [[[]|[]] fs1]; done.
  - unfold catch in *.
    destruct (os_mkdir env (c :: par) fs) as [[[]|[]] fs1]; done.
Qed.

(** With no regular file on the way, and no refusal by the platform,
    the directory and its missing ancestors are created. *)
Lemma mkdir_parents_ok env p fs :
  mkdir_allowed env →
  (∀ q, q `suffix_of` p → path_is_file fs q = false) →
  ∃ fs', mkdir_parents env true p fs = (Ok tt, fs') ∧
         path_is_dir fs' p = true.
Proof.
  intros Henv. revert fs. induction p as [|c par IH]; intros fs Hnf.
  - exists fs. assert (path_is_dir fs [] = true) as Hd.
    { specialize (Hnf [] (suffix_nil _)).
      unfold path_is_file, path_is_dir, stat in *. simpl in *. by destruct fs. }
    split; [by apply mkdir_parents_noop|done].
  - simpl. unfold catch at 1.
    destruct (os_mkdir env (c :: par) fs) as [r1 fs1] eqn:Hmk.
    pose proof Hmk as Hinv.
    apply os_mkdir_inv in Hinv as [(e & -> & ->)|(-> & Hn & Hu)].
    + apply os_mkdir_raise in Hmk. destruct e.
      * destruct Hmk as (c' & par' & [= <- <-] & Hn).
        destruct (IH fs) as (fs2 & Hrec & Hd2).
        { intros q Hq. apply Hnf. by apply suffix_cons_r. }
        unfold bind. rewrite Hrec.
        assert (stat fs2 (c :: par) = None) as Hn2.
        { apply mkdir_parents_inv in Hrec.
          destruct (Hrec (c :: par)) as [->|(_ & Hs & _)].
          - unfold stat in *. simpl. by destruct (resolve fs par).
          - apply suffix_length in Hs. simpl in Hs. lia. }
        destruct (os_mkdir_ok env c par fs2) as [fs3 Hmk3]; [done..|].
        exists fs3. unfold mkdir_single, catch. rewrite Hmk3. split; [done|].
        apply os_mkdir_inv in Hmk3 as [(e & ? & _)|(_ & _ & Hu)]; [done|].
        apply path_is_dir_stat. exists (dir_mode env).
        rewrite (Hu (c :: par)). by rewrite decide_True.
      * destruct Hmk as (q & Hq & _ & Hf). by rewrite Hnf in Hf.
      * assert (path_is_dir fs (c :: par) = true) as Hd.
        { specialize (Hnf (c :: par) (reflexivity _)).
          unfold path_exists, path_is_file, path_is_dir in *.
          by destruct (stat fs (c :: par)) as [[]|]. }
        unfold mkdir_oserror. unfold_io. rewrite Hd. simpl. eauto.
      * done.
      * by rewrite Henv in Hmk.
    + exists fs1. split; [done|].
      apply path_is_dir_stat. exists (dir_mode env).
      rewrite (Hu (c :: par)). by rewrite decide_True.
Qed.

(** ** Files and modes *)

(** A change to one node that leaves everything below it in place shows
    at that node only. *)
Lemma updates_modify_local f p fs :
  (∀ n (r : path), r ≠ [] → stat (f n) r = stat n r) →
  updates fs (modify f p fs) p
    (match resolve fs p with
     | Ok n => Some (shallow (f n))
     | Raise _ => None
     end).
Proof.
  intros Hf q. destruct (decide (p `suffix_of` q)) as [[r ->]|Hq].
  - unfold stat at 1. rewrite resolve_modify_below.
    destruct r as [|c r].
    + simpl. rewrite decide_True by done. by destruct (resolve fs p).
    + rewrite decide_False.
      2:{ intros H. apply (f_equal length) in H.
          rewrite length_app in H. simpl in H. lia. }
      unfold stat at 1. rewrite resolve_app.
      destruct (resolve fs p) as [n|e]; [|done].
      by apply (Hf n (c :: r)).
  - rewrite stat_modify_other by done.
    rewrite decide_False; [done|]. by intros ->.
Qed.

Lemma stat_dir_mode m m' ch (r : path) :
  r ≠ [] → stat (Dir m ch) r = stat (Dir m' ch) r.
Proof.
  intros Hr. destruct r as [|c r _] using rev_ind; [done|].
  unfold stat. by rewrite !resolve_app.
Qed.

Lemma open_w_inv env p fs r fs' :
  open_w env p fs = (r, fs') →
  (∃ e, r = Raise e ∧ fs' = fs) ∨
  (r = Ok tt ∧
   ∃ m, (stat fs p = None ∧ m = file_mode env ∨
         ∃ s, stat fs p = Some (IsFile m s)) ∧
        updates fs fs' p (Some (IsFile m EmptyString))).
Proof.
  unfold open_w. unfold_io.
  destruct (fault env (SysOpen p)); [naive_solver|].
  destruct p as [|c par]; [naive_solver|].
  destruct (resolve fs par) as [d|e] eqn:Hpar; [|naive_solver].
  destruct d as [m s|m ch]; simpl; [naive_solver|].
  destruct (ch !! c) as [[fm s|dm ch']|] eqn:Hc; [|naive_solver|].
  - intros [= <- <-]. right. split; [done|]. exists fm. split.
    + right. exists s. unfold stat. simpl. by rewrite Hpar; simpl; rewrite Hc.
    + apply (updates_put c (File fm EmptyString) par fs m ch); [done| |done].
      by rewrite Hc.
  - intros [= <- <-]. right. split; [done|]. exists (file_mode env). split.
    + left. unfold stat. simpl. by rewrite Hpar; simpl; rewrite Hc.
    + apply (updates_put c (File (file_mode env) EmptyString) par fs m ch);
        [done| |done].
      by rewrite Hc.
Qed.

Lemma open_w_ok env c par fs :
  fault env (SysOpen (c :: par)) = None →
  path_is_dir fs par = true →
  path_is_dir fs (c :: par) = false →
  ∃ fs', open_w env (c :: par) fs = (Ok tt, fs').
Proof.
  intros Hf Hd Hn. unfold open_w. unfold_io. rewrite Hf.
  apply path_is_dir_resolve in Hd as (m & ch & Hpar). rewrite Hpar. simpl.
  unfold path_is_dir, stat in Hn. simpl in Hn. rewrite Hpar in Hn.
  simpl in Hn. destruct (ch !! c) as [[]|]; [eauto|done|eauto].
Qed.

(** Opening a directory for writing is refused, and nothing changes. *)
Lemma open_w_dir env p fs :
  path_is_dir fs p = true →
  ∃ e, open_w env p fs = (Raise e, fs).
Proof.
  intros Hd. unfold open_w. unfold_io.
  destruct (fault env (SysOpen p)); [eauto|].
  destruct p as [|c par]; [eauto|].
  unfold path_is_dir, stat in Hd. simpl in Hd.
  destruct (resolve fs par) as [d|e]; [|done].
  destruct (child c d) as [[]|[]]; eauto; done.
Qed.

Lemma write_data_inv env p data fs r fs' :
  write_data env p data fs = (r, fs') →
  (∃ e, r = Raise e ∧ fs' = fs) ∨
  (r = Ok tt ∧ updates fs fs' p (with_data data <$> stat fs p)).
Proof.
  unfold write_data. unfold_io.
  destruct (fault env (SysWrite p)); [naive_solver|].
  intros [= <- <-]. right. split; [done|].
  replace (with_data data <$> stat fs p)
    with (match resolve fs p with
          | Ok n => Some (shallow (set_data data n))
          | Raise _ => None
          end)
    by by unfold stat; destruct (resolve fs p) as [[]|].
  apply updates_modify_local.
  by intros [] r Hr; simpl; [rewrite !resolve_leaf|].
Qed.

Lemma chmod_inv env p mode fs r fs' :
  chmod env p mode fs = (r, fs') →
  (∃ e, r = Raise e ∧ fs' = fs) ∨
  (r = Ok tt ∧ ∃ i, stat fs p = Some i ∧
                    updates fs fs' p (Some (with_mode mode i))).
Proof.
  unfold chmod. unfold_io.
  destruct (fault env (SysChmod p)); [naive_solver|].
  destruct (resolve fs p) as [n|e] eqn:Hp; [|naive_solver].
  intros [= <- <-]. right. split; [done|]. exists (shallow n). split.
  - unfold stat. by rewrite Hp.
  - pose proof (updates_modify_local (set_mode mode) p fs) as Hu.
    rewrite Hp in Hu. replace (with_mode mode (shallow n))
      with (shallow (set_mode mode n)) by by destruct n.
    apply Hu. intros [] r Hr; simpl; [by rewrite !resolve_leaf|].
    by apply stat_dir_mode.
Qed.

(** ** What a run can and cannot do to the file system *)

#[local] Instance same_kind_refl : Reflexive same_kind.
Proof. by intros []. Qed.
#[local] Instance same_kind_trans : Transitive same_kind.
Proof. by intros [] [] []. Qed.

#[local] Instance kinds_kept_preorder : PreOrder kinds_kept.
Proof.
  split.
  - intros fs q i Hi. by exists i.
  - intros fs1 fs2 fs3 H12 H23 q i Hi.
    destruct (H12 q i Hi) as (i2 & Hi2 & Hk2).
    destruct (H23 q i2 Hi2) as (i3 & Hi3 & Hk3).
    exists i3. split; [done|]. by etrans.
Qed.

#[local] Instance entries_kept_preorder : PreOrder entries_kept.
Proof.
  split; [by intros fs q i|].
  intros fs1 fs2 fs3 H12 H23 q i Hi. by apply H23, H12.
Qed.

#[local] Instance modes_changed_preorder : PreOrder modes_changed.
Proof.
  split; [by intros fs q|].
  intros fs1 fs2 fs3 H12 H23 q. by rewrite H23, H12.
Qed.

Lemma entries_kept_kinds fs fs' : entries_kept fs fs' → kinds_kept fs fs'.
Proof. intros H q i Hi. exists i. split; [by apply H|done]. Qed.

Lemma modes_changed_kinds fs fs' : modes_changed fs fs' → kinds_kept fs fs'.
Proof.
  intros H q i Hi. specialize (H q). rewrite Hi in H.
  destruct (stat fs' q) as [i'|]; [|done]. exists i'. split; [done|].
  by destruct i, i'.
Qed.

Lemma modes_changed_read fs fs' q :
  modes_changed fs fs' → read_bytes fs' q = read_bytes fs q.
Proof.
  intros H. specialize (H q). unfold read_bytes.
  destruct (stat fs q) as [[]|], (stat fs' q) as [[]|]; naive_solver.
Qed.

Lemma mkdirs_rel_entries env p fs fs' :
  mkdirs_rel env p fs fs' → entries_kept fs fs'.
Proof. intros H q i Hi. destruct (H q) as [->|(? & _)]; congruence. Qed.

Section io_rel.
Context (R : relation node) `{!PreOrder R}.

Lemma io_rel_ret {A} (a : A) : io_rel R (ret a).
Proof. by intros fs r fs' [= <- <-]. Qed.

Lemma io_rel_raise {A} e : io_rel R (@raise A e).
Proof. by intros fs r fs' [= <- <-]. Qed.

Lemma io_rel_bind {A B} (m : io A) (k : A → io B) :
  io_rel R m → (∀ a, io_rel R (k a)) → io_rel R (bind m k).
Proof.
  intros Hm Hk fs r fs'. unfold bind.
  destruct (m fs) as [[a|e] fs1] eqn:E; specialize (Hm _ _ _ E).
  - intros Hka. etrans; [done|]. by eapply Hk.
  - by intros [= <- <-].
Qed.

Lemma io_rel_catch {A} (m : io A) (h : exn → io A) :
  io_rel R m → (∀ e, io_rel R (h e)) → io_rel R (catch m h).
Proof.
  intros Hm Hh fs r fs'. unfold catch.
  destruct (m fs) as [[a|e] fs1] eqn:E; specialize (Hm _ _ _ E).
  - by intros [= <- <-].
  - intros Hhe. etrans; [done|]. by eapply Hh.
Qed.

Lemma io_rel_for_each {A} (l : list A) (body : A → io unit) :
  (∀ x, x ∈ l → io_rel R (body x)) → io_rel R (for_each l body).
Proof.
  induction l as [|x l IH]; intros Hb; simpl; [apply io_rel_ret|].
  apply io_rel_bind; [apply Hb; left|].
  intros _. apply IH. intros y Hy. apply Hb. by right.
Qed.

Lemma io_rel_exists p : io_rel R (exists_ p).
Proof. by intros fs r fs' [= <- <-]. Qed.
End io_rel.

Lemma io_rel_mono {A} (R R' : relation node) (m : io A) :
  (∀ fs fs', R fs fs' → R' fs fs') → io_rel R m → io_rel R' m.
Proof. intros HR Hm fs r fs' E. by eapply HR, Hm. Qed.

Lemma ensure_parent_dir_entries env p :
  io_rel entries_kept (ensure_parent_dir env p).
Proof.
  intros fs r fs' E. by eapply mkdirs_rel_entries, mkdir_parents_inv.
Qed.

Lemma updates_kinds fs fs' p i' :
  updates fs fs' p (Some i') →
  (∀ i, stat fs p = Some i → same_kind i i') →
  kinds_kept fs fs'.
Proof.
  intros Hu Hk q i Hi. rewrite (Hu q). case_decide as Hq; [|by exists i].
  subst q. exists i'. split; [done|]. by apply Hk.
Qed.

Lemma write_text_kinds env p content :
  io_rel kinds_kept (write_text env p content).
Proof.
  apply io_rel_bind; [apply _| |intros _].
  - intros fs r fs' E.
    apply open_w_inv in E as [(e & -> & ->)|(-> & m & Hold & Hu)]; [done|].
    eapply updates_kinds; [done|]. intros i Hi.
    destruct Hold as [[? _]|[s ?]]; [congruence|]. by simplify_eq.
  - intros fs r fs' E.
    apply write_data_inv in E as [(e & -> & ->)|(-> & Hu)]; [done|].
    intros q i Hi. rewrite (Hu q). case_decide as Hq; [|by exists i].
    subst q. rewrite Hi. simpl. eexists. split; [done|]. by destruct i.
Qed.

(** Writing to a path that is not there leaves what is there alone. *)
Lemma write_text_entries env p content fs r fs' :
  stat fs p = None →
  write_text env p content fs = (r, fs') → entries_kept fs fs'.
Proof.
  intros Hn. unfold write_text, bind.
  destruct (open_w env p fs) as [r1 fs1] eqn:E1.
  apply open_w_inv in E1 as [(e & -> & ->)|(-> & m & Hold & Hu1)].
  { by intros [= <- <-]. }
  intros E2. apply write_data_inv in E2 as [(e & -> & ->)|(-> & Hu2)].
  - intros q i Hi. rewrite (Hu1 q). case_decide; [congruence|done].
  - intros q i Hi. rewrite (Hu2 q), (Hu1 q).
    case_decide; [congruence|done].
Qed.

Lemma chmod_modes env p mode : io_rel modes_changed (chmod env p mode).
Proof.
  intros fs r fs' E.
  apply chmod_inv in E as [(e & -> & ->)|(-> & i & Hi & Hu)]; [done|].
  intros q. rewrite (Hu q). case_decide as Hq; [|done].
  subst q. rewrite Hi. by destruct i.
Qed.

(** *** The helpers of the script *)

Lemma write_file_kinds env p content overwrite :
  io_rel kinds_kept (write_file env p content overwrite).
Proof.
  apply io_rel_bind; [apply _| |intros _].
  { eapply io_rel_mono; [apply entries_kept_kinds|].
    apply ensure_parent_dir_entries. }
  apply io_rel_bind; [apply _|apply io_rel_exists; apply _|intros e].
  destruct (e && negb overwrite); [apply io_rel_ret; apply _|].
  apply write_text_kinds.
Qed.

Lemma write_file_entries env p content :
  io_rel entries_kept (write_file env p content false).
Proof.
  apply io_rel_bind; [apply _|apply ensure_parent_dir_entries|intros _].
  intros fs r fs'. unfold bind, exists_.
  destruct (path_exists fs p) eqn:He; simpl.
  - by intros [= <- <-].
  - apply write_text_entries. unfold path_exists in He.
    by destruct (stat fs p).
Qed.

Lemma write_all_kinds env root items overwrite :
  io_rel kinds_kept (write_all env root items overwrite).
Proof.
  apply io_rel_for_each; [apply _|]. intros [rel content] _.
  apply write_file_kinds.
Qed.

Lemma write_all_entries env root items :
  io_rel entries_kept (write_all env root items false).
Proof.
  apply io_rel_for_each; [apply _|]. intros [rel content] _.
  apply write_file_entries.
Qed.

Lemma chmod_executable_modes env root rp :
  io_rel modes_changed (chmod_executable env root rp).
Proof.
  apply io_rel_bind; [apply _|apply io_rel_exists; apply _|intros e].
  destruct e; [|apply io_rel_ret; apply _].
  apply io_rel_catch; [apply _|apply chmod_modes|].
  intros _. apply io_rel_ret; apply _.
Qed.

Lemma chmod_executables_modes env root relpaths :
  io_rel modes_changed (chmod_executables env root relpaths).
Proof.
  apply io_rel_for_each; [apply _|]. intros rp _.
  apply chmod_executable_modes.
Qed.

Lemma main_kinds env root overwrite :
  io_rel kinds_kept (main env root overwrite).
Proof.
  apply io_rel_bind; [apply _| |intros _].
  { eapply io_rel_mono; [apply entries_kept_kinds|].
    intros fs r fs' E. by eapply mkdirs_rel_entries, mkdir_parents_inv. }
  apply io_rel_bind; [apply _|apply write_all_kinds|intros _].
  apply io_rel_bind; [apply _| |intros _; apply io_rel_ret; apply _].
  eapply io_rel_mono; [apply modes_changed_kinds|].
  apply chmod_executables_modes.
Qed.

(** ** The writer, when the platform lets it write *)

Lemma write_file_ok env c par content overwrite fs :
  writes_allowed env →
  (∀ q, q `suffix_of` par → path_is_file fs q = false) →
  path_is_dir fs (c :: par) = false →
  ∃ fs', write_file env (c :: par) content overwrite fs = (Ok tt, fs') ∧
         stat fs' (c :: par) = written env overwrite content (stat fs (c :: par)) ∧
         ∀ q, q ≠ c :: par →
              stat fs' q = stat fs q ∨
              (stat fs q = None ∧ q `suffix_of` par ∧
               stat fs' q = Some (IsDir (dir_mode env))).
Proof.
  intros [Hmk Hwr] Hnf Hnd. unfold write_file, ensure_parent_dir. simpl.
  destruct (mkdir_parents_ok env par fs Hmk Hnf) as (fs1 & E1 & Hd1).
  unfold bind at 1. rewrite E1. apply mkdir_parents_inv in E1.
  assert (stat fs1 (c :: par) = stat fs (c :: par)) as Hsame.
  { destruct (E1 (c :: par)) as [->|(_ & Hs & _)]; [done|].
    apply suffix_length in Hs. simpl in Hs. lia. }
  unfold bind, exists_, path_exists. rewrite Hsame.
  assert (path_is_dir fs1 (c :: par) = false) as Hnd1.
  { unfold path_is_dir in *. by rewrite Hsame. }
  destruct (stat fs (c :: par)) as [i|] eqn:Hold; simpl.
  - destruct i as [m s|m]; [|by unfold path_is_dir in Hnd; rewrite Hold in Hnd].
    destruct overwrite; simpl.
    + destruct (open_w_ok env c par fs1) as [fs2 E2]; [apply Hwr|done..|].
      unfold write_text, bind. rewrite E2.
      apply open_w_inv in E2 as [(e & ? & _)|(_ & m2 & Hm2 & Hu2)]; [done|].
      destruct Hm2 as [[? _]|[s2 Hs2]]; [congruence|].
      assert (m2 = m) as -> by congruence.
      destruct (write_data env (c :: par)
                  (translate_newlines (linesep env) content) fs2)
        as [r3 fs3] eqn:E3.
      pose proof E3 as E3'. unfold write_data, refused in E3'.
      rewrite (proj2 (Hwr _)) in E3'. injection E3' as <- _.
      apply write_data_inv in E3 as [(e & ? & _)|(_ & Hu3)]; [done|].
      exists fs3. split_and!; [done| |].
      * rewrite (Hu3 (c :: par)), decide_True by done.
        rewrite (Hu2 (c :: par)), decide_True by done. done.
      * intros q Hq. rewrite (Hu3 q), decide_False by done.
        rewrite (Hu2 q), decide_False by done. apply E1.
    + exists fs1. split_and!; [done|by rewrite Hsame|].
      intros q _. apply E1.
  - destruct (open_w_ok env c par fs1) as [fs2 E2]; [apply Hwr|done..|].
    unfold write_text, bind. rewrite E2.
    apply open_w_inv in E2 as [(e & ? & _)|(_ & m2 & Hm2 & Hu2)]; [done|].
    destruct Hm2 as [[_ ->]|[s2 Hs2]]; [|congruence].
    destruct (write_data env (c :: par)
                (translate_newlines (linesep env) content) fs2)
      as [r3 fs3] eqn:E3.
    pose proof E3 as E3'. unfold write_data, refused in E3'.
    rewrite (proj2 (Hwr _)) in E3'. injection E3' as <- _.
    apply write_data_inv in E3 as [(e & ? & _)|(_ & Hu3)]; [done|].
    exists fs3. split_and!; [done| |].
    + rewrite (Hu3 (c :: par)), decide_True by done.
      rewrite (Hu2 (c :: par)), decide_True by done. done.
    + intros q Hq. rewrite (Hu3 q), decide_False by done.
      rewrite (Hu2 q), decide_False by done. apply E1.
Qed.

Lemma write_all_targets env root items overwrite :
  write_all env root items overwrite =
    write_targets env (targets root items) overwrite.
Proof.
  unfold write_all, write_targets.
  induction items as [|[rel content] items IH]; simpl; [done|].
  by rewrite IH.
Qed.

Lemma targets_ok_cons p T :
  targets_ok (p :: T) →
  targets_ok T ∧ (p ∉ T) ∧ p ≠ [] ∧
  ∀ p', p' ∈ T → ¬ p `suffix_of` p' ∧ ¬ p' `suffix_of` p.
Proof.
  intros (Hnd & Hne & Hsuf).
  apply NoDup_cons in Hnd as [Hp Hnd].
  apply Forall_cons in Hne as [Hp0 Hne].
  apply Forall_cons in Hsuf as [Hp1 Hsuf].
  apply Forall_cons in Hp1 as [_ Hp1].
  split; [split_and!; [done..|]|split_and!; [done..|]].
  - eapply Forall_impl; [exact Hsuf|]. simpl. intros p' H.
    by apply Forall_cons in H as [_ H].
  - intros p' Hp'. split; intros Hs.
    + rewrite Forall_forall in Hp1. specialize (Hp1 p' Hp' Hs). by subst.
    + rewrite Forall_forall in Hsuf. specialize (Hsuf p' Hp').
      apply Forall_cons in Hsuf as [Hsuf _]. specialize (Hsuf Hs). by subst.
Qed.

Theorem write_targets_ok env T overwrite fs :
  writes_allowed env →
  targets_ok T.*1 →
  clear_for T.*1 fs →
  ∃ fs', write_targets env T overwrite fs = (Ok tt, fs') ∧
         (∀ p content, (p, content) ∈ T →
            stat fs' p = written env overwrite content (stat fs p)) ∧
         (∀ q, (∀ p, p ∈ T.*1 → ¬ q `suffix_of` p) → stat fs' q = stat fs q).
Proof.
  intros Henv. revert fs.
  induction T as [|[p content] T IH]; intros fs HT Hclear.
  { exists fs. split_and!; [done| |done]. intros p c H. by apply elem_of_nil in H. }
  simpl in HT. apply targets_ok_cons in HT as (HT & HpT & Hp0 & Hsuf).
  destruct p as [|c par]; [done|].
  destruct (Hclear (c :: par)) as [Hnd Hnf]; [left|].
  destruct (write_file_ok env c par content overwrite fs Henv) as
    (fs1 & E1 & Hat & Helse); [|done|].
  { intros q Hq. apply Hnf; [by apply suffix_cons_r|].
    intros ->. apply suffix_length in Hq. simpl in Hq. lia. }
  assert (∀ p', p' ∈ T.*1 → stat fs1 p' = stat fs p') as Hsame.
  { intros p' Hp'. destruct (Helse p') as [->|(_ & Hs & _)]; [by intros ->|done|].
    destruct (Hsuf p' Hp') as [_ []]. by apply suffix_cons_r. }
  destruct (IH fs1 HT) as (fs' & E & Hcont & Hframe).
  { intros p' Hp'. destruct (Hclear p') as [Hnd' Hnf']; [by right|]. split.
    - unfold path_is_dir in *. by rewrite Hsame.
    - intros q Hq Hne. destruct (decide (q = c :: par)) as [->|Hqp].
      { by destruct (Hsuf p' Hp') as [[] _]. }
      unfold path_is_file.
      destruct (Helse q Hqp) as [->|(_ & _ & ->)]; [|done].
      by apply Hnf'. }
  exists fs'. split_and!.
  - unfold write_targets in *. simpl. unfold bind. by rewrite E1.
  - intros p' content' [[= -> ->]|Hin]%elem_of_cons.
    + rewrite Hframe; [done|]. intros p' Hp'. by destruct (Hsuf p' Hp').
    + assert (p' ∈ T.*1) as Hp' by (apply list_elem_of_fmap; by exists (p', content')).
      by rewrite (Hcont _ _ Hin), Hsame.
  - intros q Hq. rewrite Hframe.
    2:{ intros p' Hp'. apply Hq. by right. }
    destruct (Helse q) as [->|(_ & Hs & _)]; [|done|].
    + intros ->. by apply (Hq (c :: par)); [left|].
    + destruct (Hq (c :: par)); [left|by apply suffix_cons_r].
Qed.

(** ** The structure table as a set of targets *)

Lemma joinpath_relative root rel :
  is_prefix_of "/" rel = false → joinpath root rel = rel_path rel ++ root.
Proof. intros H. unfold joinpath. by rewrite H. Qed.

Lemma targets_fst root items :
  Forall (λ k, is_prefix_of "/" k = false) items.*1 →
  (targets root items).*1 = (.++ root) <$> (rel_path <$> items.*1).
Proof.
  induction items as [|[rel content] items IH]; [done|].
  unfold targets in *. rewrite !fmap_cons. cbn [fst].
  intros [Hrel Hrest]%Forall_cons.
  by rewrite IH, joinpath_relative.
Qed.

Lemma targets_ok_under root T :
  targets_ok T → targets_ok ((.++ root) <$> T).
Proof.
  intros (Hnd & Hne & Hsuf). split_and!.
  - apply NoDup_fmap; [|done]. intros x y H. by apply app_inv_tail in H.
  - apply Forall_fmap. eapply Forall_impl; [exact Hne|]. simpl.
    intros p Hp. by destruct p.
  - apply Forall_fmap, Forall_forall. intros p Hp. simpl.
    apply Forall_fmap, Forall_forall. intros p' Hp' Hs. simpl in *.
    apply suffix_app_inv in Hs. f_equal.
    rewrite Forall_forall in Hsuf. specialize (Hsuf p Hp).
    rewrite Forall_forall in Hsuf. by apply Hsuf.
Qed.

Lemma targets_ok_root root items :
  table_ok items → targets_ok (targets root items).*1.
Proof.
  intros [Hrel HT]. rewrite targets_fst by done. by apply targets_ok_under.
Qed.

Lemma REPO_STRUCTURE_table_ok : table_ok (dict_items REPO_STRUCTURE).
Proof.
  unfold table_ok, targets_ok.
  split_and!; compute_done.
Qed.

Lemma suffix_app_cases {A} (q r root : list A) :
  q `suffix_of` r ++ root →
  q `suffix_of` root ∨ ∃ r', r' ≠ [] ∧ q = r' ++ root.
Proof.
  induction r as [|c r IH]; simpl; [by left|].
  intros [[|c' k] Hk].
  - right. exists (c :: r). by simplify_eq/=.
  - apply IH. exists k. by simplify_eq/=.
Qed.

Lemma stat_under_empty fs root (r : path) :
  root_empty fs root → r ≠ [] → stat fs (r ++ root) = None.
Proof.
  intros [m Hroot] Hr. unfold stat. rewrite resolve_app, Hroot.
  by apply (resolve_leaf (Dir m ∅) r).
Qed.

Lemma not_file_above fs (q root : path) :
  path_is_dir fs root = true → q `suffix_of` root → path_is_file fs q = false.
Proof.
  intros Hd [r ->]. destruct r as [|c r].
  - unfold path_is_dir, path_is_file in *. simpl in *.
    by destruct (stat fs q) as [[]|].
  - apply path_is_dir_stat in Hd as [m Hd].
    apply stat_ancestor in Hd; [|done].
    unfold path_is_dir, path_is_file in *. by destruct (stat fs q) as [[]|].
Qed.

Lemma root_empty_clear fs root T :
  root_empty fs root → Forall (λ p, p ≠ []) T →
  clear_for ((.++ root) <$> T) fs.
Proof.
  intros Hroot HT p [r [-> Hr]]%list_elem_of_fmap.
  rewrite Forall_forall in HT. specialize (HT r Hr). split.
  - unfold path_is_dir. by rewrite stat_under_empty.
  - intros q [Hq|(r' & Hr' & ->)]%suffix_app_cases _.
    + eapply not_file_above; [|done]. destruct Hroot as [m Hroot].
      apply path_is_dir_resolve. eauto.
    + unfold path_is_file. by rewrite stat_under_empty.
Qed.

Lemma root_empty_clear_table fs root items :
  table_ok items → root_empty fs root →
  clear_for (targets root items).*1 fs.
Proof.
  intros [Hrel (_ & Hne & _)] Hroot. rewrite targets_fst by done.
  by apply root_empty_clear.
Qed.

Lemma elem_of_targets root items rel content :
  (rel, content) ∈ items → (joinpath root rel, content) ∈ targets root items.
Proof.
  intros H. apply list_elem_of_fmap. by exists (rel, content).
Qed.

(** Items of a dict and lookups in it. *)
Lemma dict_get_elem_of d k v : dict_get d k = Some v → (k, v) ∈ d.
Proof.
  induction d as [|[k' v'] d IH]; simpl; [done|].
  case_decide as Hk; [intros [= ->]; subst; left|intros H; right; by apply IH].
Qed.

(** ** Loops *)

Lemma for_each_app {A} (l1 l2 : list A) (body : A → io unit) fs :
  for_each (l1 ++ l2) body fs = (for_each l1 body ;; for_each l2 body) fs.
Proof.
  revert fs. induction l1 as [|x l1 IH]; intros fs; simpl; [done|].
  unfold bind in *. destruct (body x fs) as [[[]|e] fs1]; [|done].
  by rewrite IH.
Qed.

(** The loop stops at the first iteration that raises. *)
Lemma for_each_raise {A} (pre post : list A) x (body : A → io unit)
    fs fs1 e fs2 :
  for_each pre body fs = (Ok tt, fs1) →
  body x fs1 = (Raise e, fs2) →
  for_each (pre ++ x :: post) body fs = (Raise e, fs2).
Proof.
  intros Hpre Hx. rewrite for_each_app. unfold bind. rewrite Hpre. simpl.
  unfold bind. by rewrite Hx.
Qed.

Lemma for_each_ext {A} (l : list A) (body body' : A → io unit) fs :
  (∀ x fs, x ∈ l → body x fs = body' x fs) →
  for_each l body fs = for_each l body' fs.
Proof.
  revert fs. induction l as [|x l IH]; intros fs Hb; simpl; [done|].
  unfold bind. rewrite Hb by left.
  destruct (body' x fs) as [[[]|e] fs1]; [|done].
  apply IH. intros y fs' Hy. apply Hb. by right.
Qed.

(** ** Skipping what exists *)

Lemma write_file_skip env p content fs :
  p ≠ [] → path_exists fs p = true →
  write_file env p content false fs = (Ok tt, fs).
Proof.
  intros Hp He. destruct p as [|c par]; [done|].
  unfold write_file, ensure_parent_dir, bind, exists_. simpl.
  apply path_exists_stat in He as [i Hi].
  rewrite mkdir_parents_noop by by eapply stat_parent.
  unfold path_exists. by rewrite Hi.
Qed.

Lemma write_targets_skip env T fs :
  (∀ p, p ∈ T.*1 → p ≠ [] ∧ path_exists fs p = true) →
  write_targets env T false fs = (Ok tt, fs).
Proof.
  unfold write_targets.
  induction T as [|[p content] T IH]; intros HT; simpl; [done|].
  unfold bind. destruct (HT p) as [Hp He]; [left|].
  rewrite write_file_skip by done. apply IH.
  intros p' Hp'. apply HT. by right.
Qed.

(** ** The permission setter *)

Lemma chmod_executable_inv env root rp fs :
  let p := joinpath root rp in
  ∃ fs', chmod_executable env root rp fs = (Ok tt, fs') ∧
    (fs' = fs ∧ (path_exists fs p = false ∨ is_Some (fault env (SysChmod p)))
     ∨ ∃ i, stat fs p = Some i ∧ fault env (SysChmod p) = None ∧
            fs' = modify (set_mode (octal 7 5 5)) p fs ∧
            updates fs fs' p (Some (with_mode (octal 7 5 5) i))).
Proof.
  intros p. unfold chmod_executable, bind, exists_, catch. fold p.
  destruct (path_exists fs p) eqn:He; [|by exists fs; eauto].
  destruct (chmod env p (octal 7 5 5) fs) as [r fs1] eqn:E.
  pose proof E as E'. unfold chmod, refused, raise in E'.
  destruct (fault env (SysChmod p)) as [h|] eqn:Hf.
  { injection E' as <- <-. exists fs. split; [done|]. left. eauto. }
  apply path_exists_stat in He as [i Hi].
  apply chmod_inv in E as [(e & -> & ->)|(-> & i' & Hi' & Hu)].
  - unfold stat in Hi. by destruct (resolve fs p).
  - exists fs1. split; [done|]. right. exists i. split_and!; [done..| |].
    + unfold stat in Hi. destruct (resolve fs p); [|done]. by injection E'.
    + by assert (i' = i) as -> by congruence.
Qed.

Lemma chmod_executables_returns env root relpaths fs :
  ∃ fs', chmod_executables env root relpaths fs = (Ok tt, fs').
Proof.
  unfold chmod_executables. revert fs.
  induction relpaths as [|rp l IH]; intros fs; simpl; [by exists fs|].
  destruct (chmod_executable_inv env root rp fs) as (fs1 & E & _).
  unfold bind. rewrite E. apply IH.
Qed.

Lemma modes_changed_exists fs fs' p :
  modes_changed fs fs' → path_exists fs' p = path_exists fs p.
Proof.
  intros H. specialize (H p). unfold path_exists.
  by destruct (stat fs p), (stat fs' p).
Qed.

Lemma chmod_executables_keeps_mode env root relpaths fs r fs' q :
  chmod_executables env root relpaths fs = (r, fs') →
  mode_of fs q = Some (octal 7 5 5) → mode_of fs' q = Some (octal 7 5 5).
Proof.
  unfold chmod_executables. revert fs.
  induction relpaths as [|rp l IH]; intros fs; simpl.
  { by intros [= <- <-]. }
  destruct (chmod_executable_inv env root rp fs) as (fs1 & E & Hcase).
  unfold bind. rewrite E. intros Hrest Hq. apply (IH fs1 Hrest).
  destruct Hcase as [[-> _]|(i & Hi & _ & _ & Hu)]; [done|].
  unfold mode_of in *. rewrite (Hu q). case_decide as Hqp; [|done].
  by destruct i.
Qed.

(** Every listed path that exists and whose [chmod] the platform does
    not refuse ends with mode [0o755], whatever happened to the others. *)
Lemma chmod_executables_sets env root relpaths fs r fs' rp :
  chmod_executables env root relpaths fs = (r, fs') →
  rp ∈ relpaths →
  path_exists fs (joinpath root rp) = true →
  fault env (SysChmod (joinpath root rp)) = None →
  mode_of fs' (joinpath root rp) = Some (octal 7 5 5).
Proof.
  revert fs. induction relpaths as [|rp' l IH]; intros fs E Hin He Hf.
  { by apply elem_of_nil in Hin. }
  unfold chmod_executables in E. simpl in E.
  destruct (chmod_executable_inv env root rp' fs) as (fs1 & E1 & Hcase).
  unfold bind in E. rewrite E1 in E.
  assert (modes_changed fs fs1) as Hm by by eapply chmod_executable_modes.
  apply elem_of_cons in Hin as [->|Hin].
  - eapply chmod_executables_keeps_mode; [exact E|].
    destruct Hcase as [[_ [Hne|[h Hh]]]|(i & Hi & _ & _ & Hu)]; [congruence..|].
    unfold mode_of. rewrite (Hu _), decide_True by done. by destruct i.
  - apply (IH fs1); [done..| |done].
    by rewrite (modes_changed_exists fs fs1).
Qed.

Lemma set_mode_fixed fs p m :
  mode_of fs p = Some m → modify (set_mode m) p fs = fs.
Proof.
  intros Hm. apply modify_id. intros n Hn.
  unfold mode_of, stat in Hm. rewrite Hn in Hm.
  destruct n; simpl in *; by simplify_eq.
Qed.

(** Once the bits are set, setting them again changes nothing. *)
Lemma chmod_executables_fixed env root relpaths fs :
  (∀ rp, rp ∈ relpaths →
     path_exists fs (joinpath root rp) = true →
     fault env (SysChmod (joinpath root rp)) = None →
     mode_of fs (joinpath root rp) = Some (octal 7 5 5)) →
  chmod_executables env root relpaths fs = (Ok tt, fs).
Proof.
  unfold chmod_executables.
  induction relpaths as [|rp l IH]; intros H; simpl; [done|].
  destruct (chmod_executable_inv env root rp fs) as (fs1 & E & Hcase).
  assert (fs1 = fs) as ->.
  { destruct Hcase as [[-> _]|(i & Hi & Hf & -> & _)]; [done|].
    apply set_mode_fixed, H; [left| |done].
    apply path_exists_stat. eauto. }
  unfold bind. rewrite E. apply IH. intros rp' Hrp'. apply H. by right.
Qed.

Lemma chmod_executables_idem env root relpaths fs r fs' :
  chmod_executables env root relpaths fs = (r, fs') →
  chmod_executables env root relpaths fs' = (Ok tt, fs').
Proof.
  intros E. apply chmod_executables_fixed. intros rp Hrp He Hf.
  eapply chmod_executables_sets; [exact E|done| |done].
  rewrite <-He. symmetry. apply modes_changed_exists.
  by eapply chmod_executables_modes.
Qed.

(** ** The writer over the structure table *)

Lemma translate_newlines_nl s : translate_newlines nl s = s.
Proof.
  induction s as [|c s IH]; simpl; [done|].
  destruct (Ascii.eqb c LF) eqn:E; [|by rewrite IH].
  apply Ascii.eqb_eq in E. by rewrite IH, E.
Qed.

Lemma write_all_ok env root items overwrite fs :
  writes_allowed env →
  table_ok items →
  clear_for (targets root items).*1 fs →
  ∃ fs', write_all env root items overwrite fs = (Ok tt, fs') ∧
         ∀ rel content, (rel, content) ∈ items →
           stat fs' (joinpath root rel) =
             written env overwrite content (stat fs (joinpath root rel)).
Proof.
  intros Henv Hitems Hclear. rewrite write_all_targets.
  destruct (write_targets_ok env (targets root items) overwrite fs)
    as (fs' & E & Hcont & _); [done|by apply targets_ok_root|done|].
  exists fs'. split; [done|]. intros rel content Hin.
  by apply Hcont, elem_of_targets.
Qed.

Lemma target_not_above_root root items p :
  table_ok items → p ∈ (targets root items).*1 → ¬ p `suffix_of` root.
Proof.
  intros [Hrel (_ & Hne & _)]. rewrite targets_fst by done.
  intros [r [-> Hr]]%list_elem_of_fmap Hs.
  rewrite Forall_forall in Hne. specialize (Hne r Hr).
  apply suffix_length in Hs. rewrite length_app in Hs.
  destruct r; simpl in *; [done|lia].
Qed.

Lemma clear_for_mkdirs env root T fs fs0 :
  mkdirs_rel env root fs fs0 →
  (∀ p, p ∈ T → ¬ p `suffix_of` root) →
  clear_for T fs → clear_for T fs0.
Proof.
  intros Hrel HT Hclear p Hp. destruct (Hclear p Hp) as [Hnd Hnf]. split.
  - unfold path_is_dir in *.
    destruct (Hrel p) as [->|(_ & Hs & _)]; [done|]. by destruct (HT p).
  - intros q Hq Hne. unfold path_is_file.
    destruct (Hrel q) as [->|(_ & _ & ->)]; [|done]. by apply Hnf.
Qed.

Lemma root_empty_reachable fs root : root_empty fs root → root_reachable fs root.
Proof.
  intros [m Hroot] q Hq. eapply not_file_above; [|done].
  apply path_is_dir_resolve. eauto.
Qed.

(** The whole run, when nothing is in the way and the platform lets the
    writer write: it returns, and every target holds what [written]
    says. *)
Lemma main_ok env root overwrite fs :
  writes_allowed env →
  root_reachable fs root →
  clear_for (targets root (dict_items REPO_STRUCTURE)).*1 fs →
  ∃ fs0 fs1 fs2,
    mkdir_parents env true root fs = (Ok tt, fs0) ∧
    write_all env root (dict_items REPO_STRUCTURE) overwrite fs0 = (Ok tt, fs1) ∧
    chmod_executables env root executables fs1 = (Ok tt, fs2) ∧
    main env root overwrite fs = (Ok (summary root), fs2) ∧
    path_is_dir fs0 root = true ∧
    modes_changed fs1 fs2 ∧
    ∀ rel content, (rel, content) ∈ dict_items REPO_STRUCTURE →
      stat fs1 (joinpath root rel) =
        written env overwrite content (stat fs (joinpath root rel)).
Proof.
  intros Henv Hroot Hclear.
  pose proof REPO_STRUCTURE_table_ok as Htab.
  destruct (mkdir_parents_ok env root fs (proj1 Henv) Hroot) as (fs0 & E0 & Hd0).
  pose proof (mkdir_parents_inv _ _ _ _ _ _ E0) as Hrel.
  destruct (write_all_ok env root (dict_items REPO_STRUCTURE) overwrite fs0)
    as (fs1 & E1 & Hcont); [done..| |].
  { eapply clear_for_mkdirs; [done| |done].
    intros p Hp. by eapply target_not_above_root. }
  destruct (chmod_executables_returns env root executables fs1) as [fs2 E2].
  exists fs0, fs1, fs2. split_and!; [done..| | | |].
  - unfold main, bind. by rewrite E0, E1, E2.
  - done.
  - by eapply chmod_executables_modes.
  - intros rel content Hin. rewrite (Hcont _ _ Hin). f_equal.
    destruct (Hrel (joinpath root rel)) as [->|(_ & Hs & _)]; [done|].
    destruct (target_not_above_root root (dict_items REPO_STRUCTURE)
                (joinpath root rel)); [done| |done].
    apply list_elem_of_fmap. exists (joinpath root rel, content).
    split; [done|]. by apply elem_of_targets.
Qed.

Lemma read_written_gen env overwrite content fs fs' p :
  path_is_dir fs p = false →
  stat fs' p = written env overwrite content (stat fs p) →
  read_bytes fs' p =
    Some (match read_bytes fs p with
          | Some old =>
              if overwrite then translate_newlines (linesep env) content
              else old
          | None => translate_newlines (linesep env) content
          end).
Proof.
  intros Hnd Hw. unfold read_bytes, path_is_dir, written in *.
  rewrite Hw. by destruct (stat fs p) as [[]|].
Qed.

Lemma written_exists env overwrite content fs fs' p :
  stat fs' p = written env overwrite content (stat fs p) →
  path_exists fs' p = true.
Proof.
  intros Hw. unfold path_exists, written in *. rewrite Hw.
  by destruct (stat fs p) as [[]|].
Qed.

Lemma kinds_kept_dir fs fs' q :
  kinds_kept fs fs' → path_is_dir fs q = true → path_is_dir fs' q = true.
Proof.
  intros Hk [m Hq]%path_is_dir_stat.
  destruct (Hk q _ Hq) as ([] & Hq' & Hsame); [done|].
  apply path_is_dir_stat. eauto.
Qed.

Lemma clear_for_target root items fs rel content :
  clear_for (targets root items).*1 fs → (rel, content) ∈ items →
  path_is_dir fs (joinpath root rel) = false.
Proof.
  intros Hclear Hin. apply Hclear, list_elem_of_fmap.
  exists (joinpath root rel, content). split; [done|].
  by apply elem_of_targets.
Qed.

(** A second run without [--overwrite] finds everything in place and
    changes nothing. *)
Lemma main_twice env root fs :
  writes_allowed env →
  root_reachable fs root →
  clear_for (targets root (dict_items REPO_STRUCTURE)).*1 fs →
  ∃ fs', main env root false fs = (Ok (summary root), fs') ∧
         main env root false fs' = (Ok (summary root), fs').
Proof.
  intros Henv Hroot Hclear.
  destruct (main_ok env root false fs Henv Hroot Hclear)
    as (fs0 & fs1 & fs2 & E0 & E1 & E2 & E & Hd0 & Hmodes & Hcont).
  exists fs2. split; [done|].
  pose proof REPO_STRUCTURE_table_ok as Htab.
  assert (path_is_dir fs2 root = true) as Hd2.
  { eapply kinds_kept_dir; [by apply modes_changed_kinds|].
    eapply kinds_kept_dir; [by eapply write_all_kinds|done]. }
  unfold main, bind. rewrite mkdir_parents_noop by done.
  rewrite write_all_targets, write_targets_skip.
  - by rewrite (chmod_executables_idem _ _ _ _ _ _ E2).
  - intros p Hp. split.
    + destruct (targets_ok_root root _ Htab) as (_ & Hne & _).
      rewrite Forall_forall in Hne. by apply Hne.
    + apply list_elem_of_fmap in Hp as ([p' content] & -> & Hp).
      apply list_elem_of_fmap in Hp as ([rel content'] & [= -> ->] & Hin).
      simpl. rewrite (modes_changed_exists fs1 fs2) by done.
      eapply written_exists. by apply Hcont.
Qed.

Lemma dict_update_fresh d items :
  NoDup (d.*1 ++ items.*1) →
  dict_update d items = d ++ items ∧ replacements d items = 0.
Proof.
  revert d. induction items as [|[k v] items IH]; intros d Hnd; simpl.
  { by rewrite app_nil_r. }
  assert (dict_get d k = None ∧ dict_set d k v = d ++ [(k, v)]) as [Hget Hset].
  { assert (k ∉ d.*1) as Hk.
    { apply NoDup_app in Hnd as (_ & Hnd & _). intros Hin.
      apply (Hnd k Hin). left. }
    clear -Hk. induction d as [|[k' v'] d IHd]; simpl; [done|].
    rewrite fmap_cons, not_elem_of_cons in Hk. destruct Hk as [Hne Hk].
    rewrite !decide_False by done. destruct (IHd Hk) as [-> ->]. done. }
  unfold dict_has. rewrite Hget. rewrite bool_decide_eq_false_2 by by intros [].
  unfold dict_update in *. simpl. rewrite Hset.
  destruct (IH (d ++ [(k, v)])) as [-> ->].
  { rewrite fmap_app, <-app_assoc. done. }
  by rewrite <-app_assoc.
Qed.

(** ** Facts about the sample states *)

Lemma posix_writes_allowed : writes_allowed posix.
Proof. by split. Qed.

Lemma no_chmod_writes_allowed : writes_allowed no_chmod.
Proof. by split. Qed.

Lemma elem_of_ancestors (q p : path) :
  q `suffix_of` p → q ≠ p → q ∈ ancestors p.
Proof.
  induction p as [|c par IH]; intros Hs Hne.
  - apply suffix_nil_inv in Hs. by subst.
  - destruct Hs as [[|c' k] Hk]; simplify_eq/=.
    destruct (decide (q = k ++ q)) as [Heq|Hneq].
    + rewrite <-Heq. left.
    + right. apply IH; [by exists k|done].
Qed.

Lemma clear_forb_sound T fs : clear_forb T fs = true → clear_for T fs.
Proof.
  unfold clear_forb. rewrite forallb_forall. intros H p Hp.
  apply list_elem_of_In, H, andb_prop in Hp as [Hd Hf].
  split; [by apply negb_true_iff|].
  intros q Hq Hne. rewrite forallb_forall in Hf.
  apply negb_true_iff, Hf, list_elem_of_In. by apply elem_of_ancestors.
Qed.

(** After a run against an empty root every key of the table is a
    regular file with the content the table defines, written in text
    mode. *)
Lemma main_complete env root overwrite fs :
  writes_allowed env →
  root_empty fs root →
  ∃ fs1 fs2,
    write_all env root (dict_items REPO_STRUCTURE) overwrite fs = (Ok tt, fs1) ∧
    main env root overwrite fs = (Ok (summary root), fs2) ∧
    ∀ rel content, dict_get REPO_STRUCTURE rel = Some content →
      read_bytes fs1 (joinpath root rel)
        = Some (translate_newlines (linesep env) content) ∧
      read_bytes fs2 (joinpath root rel)
        = Some (translate_newlines (linesep env) content).
Proof.
  intros Henv Hroot.
  pose proof REPO_STRUCTURE_table_ok as Htab.
  pose proof (root_empty_clear_table fs root _ Htab Hroot) as Hclear.
  assert (∀ rel content, (rel, content) ∈ dict_items REPO_STRUCTURE →
            stat fs (joinpath root rel) = None) as Hnone.
  { intros rel content Hin.
    destruct Htab as [Hrel (_ & Hne & _)].
    assert (rel ∈ (dict_items REPO_STRUCTURE).*1) as Hk.
    { apply list_elem_of_fmap. exists (rel, content). split; [reflexivity|exact Hin]. }
    rewrite Forall_forall in Hrel. rewrite joinpath_relative by apply Hrel, Hk.
    apply stat_under_empty; [exact Hroot|].
    rewrite Forall_forall in Hne. apply Hne, list_elem_of_fmap. eauto. }
  destruct (write_all_ok env root (dict_items REPO_STRUCTURE) overwrite fs)
    as (fs1 & E1 & Hcont1); [exact Henv|exact Htab|exact Hclear|].
  destruct (main_ok env root overwrite fs Henv)
    as (fs0' & fs1' & fs2 & _ & _ & _ & E & _ & Hmodes & Hcont2);
    [by apply root_empty_reachable|exact Hclear|].
  exists fs1, fs2. split; [exact E1|]. split; [exact E|].
  intros rel content Hget%dict_get_elem_of.
  specialize (Hnone _ _ Hget). split.
  - rewrite (read_written_gen env overwrite content fs fs1 (joinpath root rel));
      [|unfold path_is_dir; by rewrite Hnone|exact (Hcont1 _ _ Hget)].
    unfold read_bytes. by rewrite Hnone.
  - rewrite (modes_changed_read fs1' fs2) by exact Hmodes.
    rewrite (read_written_gen env overwrite content fs fs1' (joinpath root rel));
      [|unfold path_is_dir; by rewrite Hnone|exact (Hcont2 _ _ Hget)].
    unfold read_bytes. by rewrite Hnone.
Qed.

Lemma from_option_true {A} (f : A → bool) (o : option A) :
  from_option f false o = true → ∃ x, o = Some x ∧ f x = true.
Proof. destruct o as [x|]; [|done]. intros H. by exists x. Qed.

(** Both keys of every service are in the table, with the service name
    in their content, whatever the line separator it is written with. *)
Lemma service_entries s :
  s ∈ SERVICE_NAMES →
  ∃ src tests,
    dict_get REPO_STRUCTURE (service_src s) = Some src ∧
    dict_get REPO_STRUCTURE (service_tests s) = Some tests ∧
    contains s src = true ∧ contains s tests = true ∧
    ∀ sep, contains s (translate_newlines sep src) = true ∧
           contains s (translate_newlines sep tests) = true.
Proof.
  assert (Forall (λ s,
            from_option (λ c, contains s c) false
              (dict_get REPO_STRUCTURE (service_src s)) = true ∧
            from_option (λ c, contains s c) false
              (dict_get REPO_STRUCTURE (service_tests s)) = true ∧
            ∀ sep,
              from_option (λ c, contains s (translate_newlines sep c)) false
                (dict_get REPO_STRUCTURE (service_src s)) = true ∧
              from_option (λ c, contains s (translate_newlines sep c)) false
                (dict_get REPO_STRUCTURE (service_tests s)) = true)
            SERVICE_NAMES) as Hall.
  { unfold SERVICE_NAMES.
    repeat (apply Forall_cons; split;
            [split; [vm_compute; reflexivity|];
             split; [vm_compute; reflexivity|];
             intros sep; split; vm_compute; reflexivity|]).
    by apply Forall_nil. }
  rewrite Forall_forall in Hall. intros Hs.
  destruct (Hall s Hs) as (Hsrc & Htests & Hsep). clear Hall.
  apply from_option_true in Hsrc as (src & Esrc & Hsrc).
  apply from_option_true in Htests as (tests & Etests & Htests).
  exists src, tests.
  split; [exact Esrc|]. split; [exact Etests|].
  split; [exact Hsrc|]. split; [exact Htests|].
  intros sep. destruct (Hsep sep) as [H1 H2].
  rewrite Esrc in H1. rewrite Etests in H2. by split.
Qed.

(** ** Failures *)

Lemma for_each_raise_inv {A} (l : list A) (body : A → io unit) fs e fs2 :
  for_each l body fs = (Raise e, fs2) →
  ∃ pre x post fs1,
    l = pre ++ x :: post ∧
    for_each pre body fs = (Ok tt, fs1) ∧
    body x fs1 = (Raise e, fs2).
Proof.
  revert fs. induction l as [|x l IH]; intros fs; simpl; [done|].
  unfold bind. destruct (body x fs) as [[[]|e'] fs'] eqn:Hx.
  - intros (pre & y & post & fs1 & -> & Hpre & Hy)%IH.
    exists (x :: pre), y, post, fs1. split; [done|]. split; [|done].
    simpl. unfold bind. by rewrite Hx.
  - intros [= -> ->]. by exists [], x, l, fs.
Qed.

Lemma write_file_raise env p content overwrite fs e fs' :
  write_file env p content overwrite fs = (Raise e, fs') ↔
  ensure_parent_dir env p fs = (Raise e, fs') ∨
  ∃ fs1, ensure_parent_dir env p fs = (Ok tt, fs1) ∧
         path_exists fs1 p && negb overwrite = false ∧
         write_text env p content fs1 = (Raise e, fs').
Proof.
  unfold write_file, bind, exists_.
  destruct (ensure_parent_dir env p fs) as [[[]|e1] fs1].
  - destruct (path_exists fs1 p && negb overwrite) eqn:Hskip.
    + split; [done|]. intros [?|(? & ? & ? & ?)]; simplify_eq; congruence.
    + split; [intros; right; by exists fs1|].
      intros [?|(? & ? & ? & ?)]; by simplify_eq.
  - split; [intros; by left|]. intros [?|(? & ? & _)]; by simplify_eq.
Qed.

Lemma mkdir_parents_refused env p h fs :
  fault env (SysMkdir p) = Some h →
  path_is_dir fs p = false →
  mkdir_parents env true p fs = (Raise (OSError h), fs).
Proof.
  intros Hf Hd.
  destruct p; simpl; unfold catch, os_mkdir, refused, raise; rewrite Hf;
    unfold mkdir_oserror, bind, is_dir; by rewrite Hd.
Qed.

Lemma write_text_refused_open env p h content fs :
  fault env (SysOpen p) = Some h →
  write_text env p content fs = (Raise (OSError h), fs).
Proof.
  intros Hf. unfold write_text, bind, open_w, refused, raise. by rewrite Hf.
Qed.

Lemma write_text_refused_write env p h content fs fs1 :
  open_w env p fs = (Ok tt, fs1) →
  fault env (SysWrite p) = Some h →
  write_text env p content fs = (Raise (OSError h), fs1).
Proof.
  intros Ho Hf. unfold write_text, bind. rewrite Ho.
  unfold write_data, refused, raise. by rewrite Hf.
Qed.

Lemma main_raise env root overwrite fs e fs' :
  main env root overwrite fs = (Raise e, fs') ↔
  mkdir_parents env true root fs = (Raise e, fs') ∨
  ∃ fs0, mkdir_parents env true root fs = (Ok tt, fs0) ∧
         write_all env root (dict_items REPO_STRUCTURE) overwrite fs0
           = (Raise e, fs').
Proof.
  unfold main, bind. generalize (dict_items REPO_STRUCTURE) as items.
  intros items.
  destruct (mkdir_parents env true root fs) as [[[]|e0] fs0].
  - destruct (write_all env root items overwrite fs0) as [[[]|e1] fs1] eqn:E1.
    + destruct (chmod_executables_returns env root executables fs1) as [fs2 ->].
      unfold ret. split; [done|].
      intros [?|(? & ? & ?)]; simplify_eq; congruence.
    + split; [intros [= <- <-]; right; by exists fs0|].
      intros [?|(? & ? & ?)]; simplify_eq; congruence.
  - split; [intros [= -> ->]; by left|]. intros [?|(? & ? & _)]; by simplify_eq.
Qed.

(** ** Platforms that differ in what they answer to [chmod] only *)

Section agree.
Context (env env' : platform) (Hagree : agree_off_chmod env env').

Lemma os_mkdir_agree p fs : os_mkdir env p fs = os_mkdir env' p fs.
Proof.
  destruct Hagree as (Hu & _ & Hf). unfold os_mkdir, refused, dir_mode.
  by rewrite Hu, (Hf (SysMkdir p)).
Qed.

Lemma mkdir_single_agree ok p fs :
  mkdir_single env ok p fs = mkdir_single env' ok p fs.
Proof. unfold mkdir_single, catch. by rewrite os_mkdir_agree. Qed.

Lemma mkdir_parents_agree ok p fs :
  mkdir_parents env ok p fs = mkdir_parents env' ok p fs.
Proof.
  revert ok fs. induction p as [|c par IH]; intros ok fs; simpl;
    unfold catch; rewrite os_mkdir_agree; [done|].
  destruct (os_mkdir env' (c :: par) fs) as [[[]|[]] fs1]; try done.
  unfold bind. rewrite IH.
  destruct (mkdir_parents env' true par fs1) as [[[]|] fs2]; [|done].
  apply mkdir_single_agree.
Qed.

Lemma write_text_agree p content fs :
  write_text env p content fs = write_text env' p content fs.
Proof.
  destruct Hagree as (Hu & Hl & Hf).
  unfold write_text, bind, open_w, write_data, refused, file_mode.
  by rewrite Hu, Hl, (Hf (SysOpen p)), (Hf (SysWrite p)).
Qed.

Lemma write_file_agree p content overwrite fs :
  write_file env p content overwrite fs = write_file env' p content overwrite fs.
Proof.
  unfold write_file, ensure_parent_dir, bind. rewrite mkdir_parents_agree.
  destruct (mkdir_parents env' true (tail p) fs) as [[[]|] fs1]; [|done].
  destruct (exists_ p fs1) as [[[]|] fs2]; simpl; [| |done];
    destruct overwrite; simpl; try done; apply write_text_agree.
Qed.

Lemma write_all_agree root items overwrite fs :
  write_all env root items overwrite fs = write_all env' root items overwrite fs.
Proof.
  apply for_each_ext. intros [rel content] fs1 _. apply write_file_agree.
Qed.

Lemma exit_status_agree root overwrite fs :
  (run env root overwrite fs).1 = (run env' root overwrite fs).1.
Proof.
  unfold run, main, bind. generalize (dict_items REPO_STRUCTURE) as items.
  intros items. rewrite mkdir_parents_agree.
  destruct (mkdir_parents env' true root fs) as [[[]|] fs0]; [|done].
  rewrite write_all_agree.
  destruct (write_all env' root items overwrite fs0) as [[[]|] fs1]; [|done].
  destruct (chmod_executables_returns env root executables fs1) as [fs2 ->].
  by destruct (chmod_executables_returns env' root executables fs1) as [fs2' ->].
Qed.
End agree.

Lemma chmod_executable_refused env root rp h fs :
  fault env (SysChmod (joinpath root rp)) = Some h →
  chmod_executable env root rp fs = (Ok tt, fs).
Proof.
  intros Hf. destruct (chmod_executable_inv env root rp fs) as (fs' & E & H).
  rewrite E. destruct H as [[-> _]|(_ & _ & ? & _)]; [done|congruence].
Qed.

Lemma chmod_executable_missing env root rp fs :
  path_exists fs (joinpath root rp) = false →
  chmod_executable env root rp fs = (Ok tt, fs).
Proof.
  intros He. unfold chmod_executable, bind, exists_. by rewrite He.
Qed.

(** * The claims *)

(** C1. Completeness, with the text mode of [write_text] taken into
    account: on a platform that lets the writer write, a run of
    [write_all] over the structure table against an empty root returns,
    and afterwards every key of the table is a regular file under the
    root holding the content the table defines for it as text mode
    writes it, each line feed replaced by the line separator of the
    platform; where that separator is the line feed, its bytes are
    exactly the defined content, newlines included.  The same holds at
    the end of the whole run of [main]. *)
Theorem write_all_completeness env root overwrite fs :
  writes_allowed env →
  root_empty fs root →
  ∃ fs1 fs2,
    write_all env root (dict_items REPO_STRUCTURE) overwrite fs = (Ok tt, fs1) ∧
    main env root overwrite fs = (Ok (summary root), fs2) ∧
    ∀ rel content, dict_get REPO_STRUCTURE rel = Some content →
      read_bytes fs1 (joinpath root rel)
        = Some (translate_newlines (linesep env) content) ∧
      read_bytes fs2 (joinpath root rel)
        = Some (translate_newlines (linesep env) content) ∧
      (linesep env = nl →
       read_bytes fs1 (joinpath root rel) = Some content ∧
       read_bytes fs2 (joinpath root rel) = Some content).
Proof.
  intros Henv Hroot.
  destruct (main_complete env root overwrite fs Henv Hroot)
    as (fs1 & fs2 & E1 & E & Hread).
  exists fs1, fs2. split; [exact E1|]. split; [exact E|].
  intros rel content Hget. destruct (Hread rel content Hget) as [R1 R2].
  split; [exact R1|]. split; [exact R2|].
  intros Hnl. rewrite R1, R2, Hnl, translate_newlines_nl. by split.
Qed.

Lemma write_all_completeness_witness :
  root_empty fresh_fs sample_root ∧
  ∃ fs', write_all posix sample_root (dict_items REPO_STRUCTURE) false fresh_fs
           = (Ok tt, fs') ∧
         read_bytes fs' (joinpath sample_root "CHANGELOG.md")
           = Some (lit "# Changelog\n\n").
Proof.
  assert (root_empty fresh_fs sample_root) as Hroot.
  { exists (octal 7 5 5). vm_compute. reflexivity. }
  split; [exact Hroot|].
  destruct (write_all_completeness posix sample_root false fresh_fs
              posix_writes_allowed Hroot) as (fs1 & fs2 & E & _ & H).
  exists fs1. split; [exact E|].
  apply (H "CHANGELOG.md" (lit "# Changelog\n\n")); [|reflexivity].
  vm_compute. reflexivity.
Defined.

(** C1 without the condition on the line separator fails: on [crlf],
    which refuses nothing, the run against the empty root returns and
    [CHANGELOG.md] then holds a carriage return before each of its two
    line feeds, which is not the content the table defines for it. *)
Lemma write_all_completeness_counterexample :
  writes_allowed crlf ∧
  root_empty fresh_fs sample_root ∧
  dict_get REPO_STRUCTURE "CHANGELOG.md" = Some (lit "# Changelog\n\n") ∧
  ∃ fs', write_all crlf sample_root (dict_items REPO_STRUCTURE) false fresh_fs
           = (Ok tt, fs') ∧
         read_bytes fs' (joinpath sample_root "CHANGELOG.md")
           = Some ("# Changelog" +:+ linesep crlf +:+ linesep crlf) ∧
         read_bytes fs' (joinpath sample_root "CHANGELOG.md")
           ≠ Some (lit "# Changelog\n\n").
Proof.
  split; [by split|].
  split; [exists (octal 7 5 5); vm_compute; reflexivity|].
  split; [vm_compute; reflexivity|].
  exists (write_all crlf sample_root (dict_items REPO_STRUCTURE) false fresh_fs).2.
  split.
  { assert ((write_all crlf sample_root (dict_items REPO_STRUCTURE) false
               fresh_fs).1 = Ok tt) as H1 by (vm_compute; reflexivity).
    rewrite <-H1.
    by destruct (write_all crlf sample_root (dict_items REPO_STRUCTURE) false
                   fresh_fs). }
  split; [vm_compute; reflexivity|].
  intros H. vm_compute in H. discriminate H.
Qed.

(** C2. Non-destructive default: in a run without [--overwrite], on any
    platform and whether the run returns or raises, every regular file
    that existed before the run, at a target or anywhere else, holds the
    bytes it held; [write_file] on a path that exists returns without
    error and leaves the file system as it is.  If moreover the platform
    lets the writer write, no directory sits at a target and no regular
    file sits where a directory is needed, the run returns and every key
    of the table whose path did not exist is a regular file holding the
    content the table defines (with the line separator of the
    platform). *)
Theorem existing_files_preserved env root fs :
  (∀ r fs', main env root false fs = (r, fs') →
     ∀ q old, read_bytes fs q = Some old → read_bytes fs' q = Some old) ∧
  (∀ p content, p ≠ [] → path_exists fs p = true →
     write_file env p content false fs = (Ok tt, fs)) ∧
  (writes_allowed env →
   root_reachable fs root →
   clear_for (targets root (dict_items REPO_STRUCTURE)).*1 fs →
   ∃ fs', main env root false fs = (Ok (summary root), fs') ∧
     ∀ rel content, dict_get REPO_STRUCTURE rel = Some content →
       path_exists fs (joinpath root rel) = false →
       read_bytes fs' (joinpath root rel)
         = Some (translate_newlines (linesep env) content)).
Proof.
  split_and!.
  - intros r fs' E q old Hold.
    assert (kept : ∃ fs1, entries_kept fs fs1 ∧ modes_changed fs1 fs').
    { revert E. unfold main, bind.
      generalize (dict_items REPO_STRUCTURE) as items. intros items.
      destruct (mkdir_parents env true root fs) as [r0 fs0] eqn:E0.
      apply mkdir_parents_inv, mkdirs_rel_entries in E0.
      destruct r0 as [[]|e0]; [|intros [= <- <-]; by exists fs0].
      destruct (write_all env root items false fs0) as [r1 fs1] eqn:E1.
      apply write_all_entries in E1.
      assert (entries_kept fs fs1) as Hkept by by etrans.
      destruct r1 as [[]|e1]; [|intros [= <- <-]; by exists fs1].
      destruct (chmod_executables env root executables fs1) as [r2 fs2] eqn:E2.
      apply chmod_executables_modes in E2.
      destruct r2 as [[]|e2]; intros [= <- <-]; by exists fs1. }
    destruct kept as (fs1 & Hkept & Hmodes).
    rewrite (modes_changed_read fs1 fs') by exact Hmodes.
    unfold read_bytes in *.
    destruct (stat fs q) as [[m s|m]|] eqn:Hq; [|done..].
    by rewrite (Hkept q _ Hq).
  - intros p content Hp He. by apply write_file_skip.
  - intros Henv Hroot Hclear.
    destruct (main_ok env root false fs Henv Hroot Hclear)
      as (fs0 & fs1 & fs2 & _ & _ & _ & E & _ & Hmodes & Hcont).
    exists fs2. split; [exact E|].
    intros rel content Hget%dict_get_elem_of Hne.
    rewrite (modes_changed_read fs1 fs2) by exact Hmodes.
    assert (stat fs (joinpath root rel) = None) as Hnone.
    { unfold path_exists in Hne. by destruct (stat fs (joinpath root rel)). }
    rewrite (read_written_gen env false content fs fs1 (joinpath root rel));
      [|unfold path_is_dir; by rewrite Hnone|exact (Hcont _ _ Hget)].
    unfold read_bytes. by rewrite Hnone.
Qed.

Lemma existing_files_preserved_witness :
  read_bytes customised_fs (joinpath sample_root "README.md") = Some "my own notes" ∧
  ∃ fs', main posix sample_root false customised_fs = (Ok (summary sample_root), fs') ∧
         read_bytes fs' (joinpath sample_root "README.md") = Some "my own notes" ∧
         read_bytes fs' (joinpath sample_root "LICENSE")
           = Some (lit "TODO: rAdd license text.\n").
Proof.
  split; [vm_compute; reflexivity|].
  destruct (existing_files_preserved posix sample_root customised_fs)
    as (Hold & _ & Hnew).
  destruct (Hnew posix_writes_allowed) as (fs' & E & Hcreated).
  - intros q Hq. apply (not_file_above _ q sample_root); [|exact Hq].
    vm_compute. reflexivity.
  - apply clear_forb_sound. vm_compute. reflexivity.
  - exists fs'. split; [exact E|]. split.
    + apply (Hold _ _ E). vm_compute. reflexivity.
    + rewrite (Hcreated "LICENSE" (lit "TODO: rAdd license text.\n"));
        vm_compute; reflexivity.
Defined.

(** C3. Idempotence: starting from an empty root, on a platform that
    lets the writer write, a run without [--overwrite] exits with
    status 0, and a second run on the state the first one left exits
    with status 0 and leaves exactly that state: the same files, the
    same contents, the same modes. *)
Theorem main_idempotent env root fs :
  writes_allowed env →
  root_empty fs root →
  ∃ fs1, run env root false fs = (0%Z, fs1) ∧
         run env root false fs1 = (0%Z, fs1).
Proof.
  intros Henv Hroot.
  destruct (main_twice env root fs Henv) as (fs1 & E1 & E2).
  - by apply root_empty_reachable.
  - apply root_empty_clear_table; [apply REPO_STRUCTURE_table_ok|done].
  - exists fs1. unfold run. by rewrite E1, E2.
Qed.

Lemma main_idempotent_witness :
  root_empty fresh_fs sample_root ∧
  ∃ fs1, run posix sample_root false fresh_fs = (0%Z, fs1) ∧
         run posix sample_root false fs1 = (0%Z, fs1).
Proof.
  assert (root_empty fresh_fs sample_root) as Hroot.
  { exists (octal 7 5 5). vm_compute. reflexivity. }
  split; [exact Hroot|].
  exact (main_idempotent posix sample_root fresh_fs posix_writes_allowed Hroot).
Defined.

(** C4. Overwrite forces refresh, with the text mode of [write_text]
    taken into account: with [--overwrite], when no directory sits at a
    target and no regular file sits where a directory is needed, on a
    platform that lets the writer write, the run returns and every key
    of the table, whether or not a file was there before, is a regular
    file holding the content the table defines as text mode writes it,
    each line feed replaced by the line separator of the platform:
    exactly the defined content where that separator is the line feed.
    Every target is a file of its own here: two targets that are names
    of one file are outside the model. *)
Theorem overwrite_refreshes env root fs :
  writes_allowed env →
  root_reachable fs root →
  clear_for (targets root (dict_items REPO_STRUCTURE)).*1 fs →
  ∃ fs', main env root true fs = (Ok (summary root), fs') ∧
         ∀ rel content, dict_get REPO_STRUCTURE rel = Some content →
           read_bytes fs' (joinpath root rel)
             = Some (translate_newlines (linesep env) content) ∧
           (linesep env = nl →
            read_bytes fs' (joinpath root rel) = Some content).
Proof.
  intros Henv Hroot Hclear.
  destruct (main_ok env root true fs Henv Hroot Hclear)
    as (fs0 & fs1 & fs2 & _ & _ & _ & E & _ & Hmodes & Hcont).
  exists fs2. split; [exact E|]. intros rel content Hget%dict_get_elem_of.
  assert (read_bytes fs2 (joinpath root rel)
            = Some (translate_newlines (linesep env) content)) as R.
  { rewrite (modes_changed_read fs1 fs2) by exact Hmodes.
    rewrite (read_written_gen env true content fs fs1 (joinpath root rel));
      [|by eapply clear_for_target|exact (Hcont _ _ Hget)].
    by destruct (read_bytes fs (joinpath root rel)). }
  split; [exact R|]. intros Hnl. by rewrite R, Hnl, translate_newlines_nl.
Qed.

Lemma overwrite_refreshes_witness :
  read_bytes customised_fs (joinpath sample_root "README.md") = Some "my own notes" ∧
  ∃ fs', main posix sample_root true customised_fs = (Ok (summary sample_root), fs') ∧
         read_bytes fs' (joinpath sample_root "README.md")
           = Some (lit "# ASV\n\nMonorepo scaffold.\n").
Proof.
  split; [vm_compute; reflexivity|].
  destruct (overwrite_refreshes posix sample_root customised_fs
              posix_writes_allowed) as (fs' & E & Hnew).
  - intros q Hq. apply (not_file_above _ q sample_root); [|exact Hq].
    vm_compute. reflexivity.
  - apply clear_forb_sound. vm_compute. reflexivity.
  - exists fs'. split; [exact E|].
    apply (Hnew "README.md" (lit "# ASV\n\nMonorepo scaffold.\n")); [|reflexivity].
    vm_compute. reflexivity.
Defined.

(** C4 without the condition on the line separator fails: on [crlf],
    which refuses nothing, the run with [--overwrite] over a root that
    holds a [README.md] of the user's own returns, and the file then
    holds the table entry with a carriage return before each line feed,
    which is not the table entry. *)
Lemma overwrite_refreshes_counterexample :
  writes_allowed crlf ∧
  read_bytes customised_fs (joinpath sample_root "README.md")
    = Some "my own notes" ∧
  dict_get REPO_STRUCTURE "README.md"
    = Some (lit "# ASV\n\nMonorepo scaffold.\n") ∧
  ∃ fs', main crlf sample_root true customised_fs
           = (Ok (summary sample_root), fs') ∧
         read_bytes fs' (joinpath sample_root "README.md")
           = Some ("# ASV" +:+ linesep crlf +:+ linesep crlf +:+
                   "Monorepo scaffold." +:+ linesep crlf) ∧
         read_bytes fs' (joinpath sample_root "README.md")
           ≠ Some (lit "# ASV\n\nMonorepo scaffold.\n").
Proof.
  split; [by split|].
  split; [vm_compute; reflexivity|].
  split; [vm_compute; reflexivity|].
  exists (main crlf sample_root true customised_fs).2.
  split.
  { assert ((main crlf sample_root true customised_fs).1
            = Ok (summary sample_root)) as H1 by (vm_compute; reflexivity).
    rewrite <-H1. by destruct (main crlf sample_root true customised_fs). }
  split; [vm_compute; reflexivity|].
  intros H. vm_compute in H. discriminate H.
Qed.

(** C5. Fatal I/O failure propagation: [main] raises [e] in state [fs']
    exactly when the creation of the root, the creation of the parent
    directory of some entry, or the write of some entry raised [e] in
    state [fs'], every earlier entry having been written: nothing is
    retried, nothing later is attempted, nothing is caught.  The exit
    status is then 1, and it is 0 when [main] returns.  A refusal by the
    platform of a [mkdir] of a directory that is not there, of an
    [open], or of a write, is such a failure. *)
Theorem fatal_failure_propagates env root overwrite fs :
  (∀ e fs', fatal_failure env root overwrite fs e fs' ↔
            main env root overwrite fs = (Raise e, fs')) ∧
  (∀ e fs', main env root overwrite fs = (Raise e, fs') →
            run env root overwrite fs = (1%Z, fs')) ∧
  (∀ out fs', main env root overwrite fs = (Ok out, fs') →
              run env root overwrite fs = (0%Z, fs')) ∧
  (∀ p h fs, fault env (SysMkdir p) = Some h → path_is_dir fs p = false →
             mkdir_parents env true p fs = (Raise (OSError h), fs)) ∧
  (∀ p h content fs, fault env (SysOpen p) = Some h →
             write_text env p content fs = (Raise (OSError h), fs)) ∧
  (∀ p h content fs fs1, open_w env p fs = (Ok tt, fs1) →
             fault env (SysWrite p) = Some h →
             write_text env p content fs = (Raise (OSError h), fs1)).
Proof.
  split_and!.
  - intros e fs'. rewrite main_raise. split.
    + intros [Hroot|pre rel content post fs0 fs1 Hsplit E0 Epre Hmk
                   |pre rel content post fs0 fs1 fs2 Hsplit E0 Epre Hmk Hskip Hwr].
      * by left.
      * right. exists fs0. split; [done|]. rewrite Hsplit.
        apply (for_each_raise pre post (rel, content) _ fs0 fs1); [done|].
        apply write_file_raise. by left.
      * right. exists fs0. split; [done|]. rewrite Hsplit.
        apply (for_each_raise pre post (rel, content) _ fs0 fs1); [done|].
        apply write_file_raise. right. exists fs2.
        split; [exact Hmk|]. split; [exact Hskip|exact Hwr].
    + intros [Hroot|(fs0 & E0 & Hall)]; [by apply root_mkdir_fails|].
      apply for_each_raise_inv in Hall
        as (pre & [rel content] & post & fs1 & Hsplit & Epre & Hx).
      apply write_file_raise in Hx as [Hmk|(fs2 & Hmk & Hskip & Hwr)].
      * by eapply parent_mkdir_fails.
      * by eapply file_write_fails.
  - intros e fs' E. unfold run. by rewrite E.
  - intros out fs' E. unfold run. by rewrite E.
  - apply mkdir_parents_refused.
  - apply write_text_refused_open.
  - apply write_text_refused_write.
Qed.

Lemma fatal_failure_propagates_witness :
  ∃ fs', run disk_full sample_root false fresh_fs = (1%Z, fs') ∧
         read_bytes fs' (joinpath sample_root "README.md")
           = Some (lit "# ASV\n\nMonorepo scaffold.\n") ∧
         read_bytes fs' (joinpath sample_root "LICENSE") = Some EmptyString ∧
         path_exists fs' (joinpath sample_root ".env.example") = false.
Proof.
  exists (main disk_full sample_root false fresh_fs).2. split.
  - apply (proj1 (proj2 (fatal_failure_propagates disk_full sample_root false
                           fresh_fs)) (OSError NoSpace)).
    vm_compute. reflexivity.
  - split_and!; vm_compute; reflexivity.
Defined.

(** C6. Permission setting is best effort: [chmod_executables] always
    returns, whatever the platform answers, and changes nothing but
    permission bits.  A path whose [chmod] the platform refuses, or
    that does not exist, is passed over as if it were not in the list,
    and the loop goes on: every listed path that exists and whose
    [chmod] is not refused ends with mode [0o755].  The exit status of a
    run does not depend on what the platform answers to [chmod]. *)
Theorem chmod_best_effort env root relpaths fs :
  (∃ fs', chmod_executables env root relpaths fs = (Ok tt, fs') ∧
          modes_changed fs fs' ∧
          ∀ rp, rp ∈ relpaths →
                path_exists fs (joinpath root rp) = true →
                fault env (SysChmod (joinpath root rp)) = None →
                mode_of fs' (joinpath root rp) = Some (octal 7 5 5)) ∧
  (∀ pre rp post,
     relpaths = pre ++ rp :: post →
     is_Some (fault env (SysChmod (joinpath root rp))) ∨
       path_exists fs (joinpath root rp) = false →
     chmod_executables env root relpaths fs
       = chmod_executables env root (pre ++ post) fs) ∧
  (∀ env' overwrite fs0,
     agree_off_chmod env env' →
     (run env root overwrite fs0).1 = (run env' root overwrite fs0).1).
Proof.
  split_and!.
  - destruct (chmod_executables_returns env root relpaths fs) as [fs' E].
    exists fs'. split; [done|]. split; [by eapply chmod_executables_modes|].
    intros rp Hrp He Hf. by eapply chmod_executables_sets.
  - intros pre rp post -> Hskip. unfold chmod_executables.
    rewrite !for_each_app. unfold bind.
    destruct (for_each pre (chmod_executable env root) fs) as [[[]|e] fs1] eqn:E;
      [|done].
    simpl. unfold bind.
    destruct Hskip as [[h Hh]|Hmiss].
    + by rewrite (chmod_executable_refused env root rp h).
    + rewrite chmod_executable_missing; [done|].
      rewrite <-Hmiss. apply modes_changed_exists.
      by eapply (chmod_executables_modes env root pre).
  - intros env' overwrite fs0 Hagree. by apply exit_status_agree.
Qed.

Lemma chmod_best_effort_witness :
  ∃ fs fs',
    run posix sample_root false fresh_fs = (0%Z, fs) ∧
    run no_chmod sample_root false fresh_fs = (0%Z, fs') ∧
    mode_of fs (joinpath sample_root ".githooks/commit-msg") = Some (octal 7 5 5) ∧
    mode_of fs' (joinpath sample_root ".githooks/commit-msg") = Some (octal 6 4 4).
Proof.
  exists (run posix sample_root false fresh_fs).2,
         (run no_chmod sample_root false fresh_fs).2.
  assert ((run posix sample_root false fresh_fs).1 = 0%Z) as H0
    by (vm_compute; reflexivity).
  pose proof (proj2 (proj2 (chmod_best_effort posix sample_root
                executables fresh_fs)) no_chmod false fresh_fs) as Hsame.
  assert ((run no_chmod sample_root false fresh_fs).1 = 0%Z) as H1.
  { rewrite <-Hsame; [exact H0|].
    split; [reflexivity|]. split; [reflexivity|].
    intros c Hc. destruct c; try reflexivity. by destruct (Hc p). }
  split_and!.
  - rewrite <-H0. by destruct (run posix sample_root false fresh_fs).
  - rewrite <-H1. by destruct (run no_chmod sample_root false fresh_fs).
  - vm_compute. reflexivity.
  - vm_compute. reflexivity.
Defined.

(** C7. Generated service entries: the service-name list is the list of
    thirteen names below, and for each name [s] in it the table has the
    keys [backend/services/s/src/README.md] and
    [backend/services/s/tests/README.md], each with a content in which
    [s] occurs; after a run against an empty root, on a platform that
    lets the writer write, both are regular files whose bytes contain
    [s]: the bytes of that content as text mode writes it. *)
Theorem service_entries_generated env root overwrite fs s :
  writes_allowed env →
  root_empty fs root →
  s ∈ SERVICE_NAMES →
  SERVICE_NAMES =
    [ "gateway"; "auth"; "fleet"; "telemetry"; "realtime"; "commands";
      "approvals"; "incidents"; "alerting"; "audit"; "policy"; "video";
      "config_rollout" ] ∧
  ∃ src tests fs' src_bytes tests_bytes,
    dict_get REPO_STRUCTURE (service_src s) = Some src ∧
    dict_get REPO_STRUCTURE (service_tests s) = Some tests ∧
    contains s src = true ∧ contains s tests = true ∧
    main env root overwrite fs = (Ok (summary root), fs') ∧
    read_bytes fs' (joinpath root (service_src s)) = Some src_bytes ∧
    read_bytes fs' (joinpath root (service_tests s)) = Some tests_bytes ∧
    src_bytes = translate_newlines (linesep env) src ∧
    tests_bytes = translate_newlines (linesep env) tests ∧
    contains s src_bytes = true ∧ contains s tests_bytes = true.
Proof.
  intros Henv Hroot Hs. split; [reflexivity|].
  destruct (service_entries s Hs)
    as (src & tests & Esrc & Etests & Hsrc & Htests & Hsep).
  destruct (main_complete env root overwrite fs Henv Hroot)
    as (fs1 & fs2 & _ & E & Hread).
  destruct (Hsep (linesep env)) as [Bsrc Btests].
  exists src, tests, fs2, (translate_newlines (linesep env) src),
    (translate_newlines (linesep env) tests).
  split; [exact Esrc|]. split; [exact Etests|].
  split; [exact Hsrc|]. split; [exact Htests|]. split; [exact E|].
  split; [exact (proj2 (Hread _ _ Esrc))|].
  split; [exact (proj2 (Hread _ _ Etests))|].
  split; [reflexivity|]. split; [reflexivity|].
  split; [exact Bsrc|exact Btests].
Qed.

Lemma service_entries_generated_witness :
  ∃ fs', main posix sample_root false fresh_fs = (Ok (summary sample_root), fs') ∧
         read_bytes fs' (joinpath sample_root "backend/services/gateway/src/README.md")
           = Some (lit "# gateway\n") ∧
         read_bytes fs' (joinpath sample_root "backend/services/gateway/tests/README.md")
           = Some (lit "# tests for gateway\n").
Proof.
  destruct (service_entries_generated posix sample_root false fresh_fs "gateway"
              posix_writes_allowed)
    as (_ & src & tests & fs' & sb & tb & Hsrc & Htests & _ & _ & E
          & Rsrc & Rtests & -> & -> & _).
  - exists (octal 7 5 5). vm_compute. reflexivity.
  - left.
  - exists fs'. split; [exact E|].
    assert (src = lit "# gateway\n") as ->.
    { vm_compute in Hsrc. injection Hsrc as <-. vm_compute. reflexivity. }
    assert (tests = lit "# tests for gateway\n") as ->.
    { vm_compute in Htests. injection Htests as <-. vm_compute. reflexivity. }
    split; (etrans; [first [exact Rsrc|exact Rtests]|]); vm_compute; reflexivity.
Defined.

(** C8. The writer never deletes a directory: a path at which a
    directory exists before the run is a directory after the run,
    whether the run returns or raises, with or without [--overwrite],
    on any platform.  When that path is a target, [write_file] without
    [--overwrite] skips it and leaves the file system as it is, and
    [write_file] with [--overwrite] raises and leaves the file system as
    it is. *)
Theorem directories_never_deleted env root overwrite fs q content :
  path_is_dir fs q = true →
  path_is_dir (main env root overwrite fs).2 q = true ∧
  (∀ items, path_is_dir (write_all env root items overwrite fs).2 q = true) ∧
  write_file env q content false fs = (Ok tt, fs) ∧
  ∃ e, write_file env q content true fs = (Raise e, fs).
Proof.
  intros Hd. split_and!.
  - destruct (main env root overwrite fs) as [r fs'] eqn:E.
    eapply kinds_kept_dir; [|done]. by eapply main_kinds.
  - intros items. destruct (write_all env root items overwrite fs) as [r fs'] eqn:E.
    eapply kinds_kept_dir; [|done]. by eapply write_all_kinds.
  - assert (path_is_dir fs (tail q) = true) as Hpar.
    { destruct q as [|c par]; [done|].
      apply path_is_dir_stat in Hd as [m Hq]. by eapply stat_parent. }
    unfold write_file, ensure_parent_dir, bind, exists_.
    rewrite mkdir_parents_noop by done.
    unfold path_exists, path_is_dir in *. by destruct (stat fs q).
  - assert (path_is_dir fs (tail q) = true) as Hpar.
    { destruct q as [|c par]; [done|].
      apply path_is_dir_stat in Hd as [m Hq]. by eapply stat_parent. }
    destruct (open_w_dir env q fs Hd) as [e Ho]. exists e.
    unfold write_file, ensure_parent_dir, bind, exists_.
    rewrite mkdir_parents_noop by done.
    rewrite andb_false_r. unfold write_text, bind. by rewrite Ho.
Qed.

Lemma directories_never_deleted_witness :
  path_is_dir obstructed_fs (joinpath sample_root "README.md") = true ∧
  path_is_dir (main posix sample_root false obstructed_fs).2
    (joinpath sample_root "README.md") = true ∧
  path_is_dir (main posix sample_root true obstructed_fs).2
    (joinpath sample_root "README.md") = true ∧
  run posix sample_root true obstructed_fs = (1%Z, obstructed_fs).
Proof.
  assert (path_is_dir obstructed_fs (joinpath sample_root "README.md") = true)
    as Hd by (vm_compute; reflexivity).
  split; [exact Hd|].
  split; [exact (proj1 (directories_never_deleted posix sample_root false
                          obstructed_fs _ EmptyString Hd))|].
  split; [exact (proj1 (directories_never_deleted posix sample_root true
                          obstructed_fs _ EmptyString Hd))|].
  vm_compute. reflexivity.
Defined.

(** C10. No construction-time collision: every assignment the
    construction of [REPO_STRUCTURE] performs (the items of the dict
    display, the three generative loops, the single assignment and the
    five [update] blocks) uses a key that no earlier assignment used.
    Hence no assignment replaces a value, the items of the table are the
    assignments themselves, in program order, and the size of the table
    is the number of assignments, 209. *)
Theorem no_construction_collisions :
  NoDup assignments.*1 ∧
  replacements [] assignments = 0 ∧
  REPO_STRUCTURE = dict_update [] assignments ∧
  dict_items REPO_STRUCTURE = assignments ∧
  length (dict_keys REPO_STRUCTURE) = length assignments ∧
  length assignments = 209.
Proof.
  assert (NoDup assignments.*1) as Hnd by compute_done.
  assert (REPO_STRUCTURE = dict_update [] assignments) as Hrepo
    by (vm_compute; reflexivity).
  destruct (dict_update_fresh [] assignments Hnd) as [Hupd Hrep].
  rewrite app_nil_l in Hupd.
  split; [exact Hnd|]. split; [exact Hrep|]. split; [exact Hrepo|].
  unfold dict_items, dict_keys. rewrite Hrepo, Hupd. clear.
  split; [reflexivity|]. split; [apply length_fmap|].
  vm_compute. reflexivity.
Qed.

(** * Further properties *)

(** ** Directory creation, continued *)

Lemma mkdir_single_returns_dir env ok p fs fs' :
  mkdir_single env ok p fs = (Ok tt, fs') → path_is_dir fs' p = true.
Proof.
  unfold mkdir_single, catch.
  destruct (os_mkdir env p fs) as [r1 fs1] eqn:Hmk.
  apply os_mkdir_inv in Hmk as [(e & -> & ->)|(-> & Hn & Hu)].
  - destruct e; try done;
      intros H; apply mkdir_oserror_inv in H as [-> [[_ Hd]|?]]; done.
  - intros [= <-]. apply path_is_dir_stat. exists (dir_mode env).
    by rewrite (Hu p), decide_True.
Qed.

Lemma mkdir_parents_returns_dir env ok p fs fs' :
  mkdir_parents env ok p fs = (Ok tt, fs') → path_is_dir fs' p = true.
Proof.
  destruct p as [|c par]; simpl; unfold catch.
  - destruct (os_mkdir env [] fs) as [r1 fs1] eqn:Hmk.
    apply os_mkdir_inv in Hmk as [(e & -> & ->)|(-> & Hn & Hu)].
    + destruct e; try done;
        intros H; apply mkdir_oserror_inv in H as [-> [[_ Hd]|?]]; done.
    + intros [= <-]. apply path_is_dir_stat. exists (dir_mode env).
      by rewrite (Hu []), decide_True.
  - destruct (os_mkdir env (c :: par) fs) as [r1 fs1] eqn:Hmk.
    apply os_mkdir_inv in Hmk as [(e & -> & ->)|(-> & Hn & Hu)].
    + destruct e;
        try (intros H; apply mkdir_oserror_inv in H as [-> [[_ Hd]|?]]; done).
      unfold bind.
      destruct (mkdir_parents env true par fs) as [[[]|e2] fs2]; [|done].
      apply mkdir_single_returns_dir.
    + intros [= <-]. apply path_is_dir_stat. exists (dir_mode env).
      by rewrite (Hu (c :: par)), decide_True.
Qed.

Lemma path_is_dir_above fs (q p : path) :
  path_is_dir fs p = true → q `suffix_of` p → path_is_dir fs q = true.
Proof.
  intros Hd [r ->]. destruct r as [|c r]; [done|].
  apply path_is_dir_stat in Hd as [m Hd]. by eapply stat_ancestor.
Qed.

(** X1. When [ensure_parent_dir] returns, on any platform and from any
    file system, the parent of the path and every ancestor of it is a
    directory; every entry that existed is exactly as it was, and no path
    other than these ancestors has changed. *)
Theorem ensure_parent_dir_creates_ancestors env p fs fs' :
  ensure_parent_dir env p fs = (Ok tt, fs') →
  (∀ q, q `suffix_of` tail p → path_is_dir fs' q = true) ∧
  (∀ q i, stat fs q = Some i → stat fs' q = Some i) ∧
  (∀ q, ¬ q `suffix_of` tail p → stat fs' q = stat fs q).
Proof.
  unfold ensure_parent_dir. intros E. split_and!.
  - intros q Hq. eapply path_is_dir_above; [|exact Hq].
    by eapply mkdir_parents_returns_dir.
  - by eapply mkdirs_rel_entries, mkdir_parents_inv.
  - intros q Hq. apply mkdir_parents_inv in E.
    by destruct (E q) as [?|(_ & ? & _)].
Qed.

Lemma ensure_parent_dir_creates_ancestors_witness :
  ∃ fs', ensure_parent_dir posix (joinpath sample_root "docs/api/openapi.md")
           fresh_fs = (Ok tt, fs') ∧
         path_is_dir fresh_fs (joinpath sample_root "docs") = false ∧
         path_is_dir fs' (joinpath sample_root "docs") = true ∧
         path_is_dir fs' (joinpath sample_root "docs/api") = true ∧
         path_exists fs' (joinpath sample_root "docs/api/openapi.md") = false.
Proof.
  set (p := joinpath sample_root "docs/api/openapi.md").
  set (fs' := (ensure_parent_dir posix p fresh_fs).2).
  exists fs'.
  assert (ensure_parent_dir posix p fresh_fs = (Ok tt, fs')) as E
    by (vm_compute; reflexivity).
  destruct (ensure_parent_dir_creates_ancestors posix p fresh_fs fs' E)
    as (Hdirs & _ & _).
  split; [exact E|].
  split; [vm_compute; reflexivity|].
  split; [apply Hdirs; exists ["api"]; vm_compute; reflexivity|].
  split; [apply Hdirs; exists []; vm_compute; reflexivity|].
  vm_compute. reflexivity.
Defined.

(** X2. [ensure_parent_dir] tolerates what exists: when the parent is a
    directory it returns and changes nothing, even on a platform that
    refuses every [mkdir]; so calling it again after it returned changes
    nothing. *)
Theorem ensure_parent_dir_idempotent env p fs :
  (path_is_dir fs (tail p) = true →
   ensure_parent_dir env p fs = (Ok tt, fs)) ∧
  (∀ fs', ensure_parent_dir env p fs = (Ok tt, fs') →
          ensure_parent_dir env p fs' = (Ok tt, fs')).
Proof.
  unfold ensure_parent_dir. split.
  - apply mkdir_parents_noop.
  - intros fs' E. apply mkdir_parents_noop.
    by eapply mkdir_parents_returns_dir.
Qed.

Lemma ensure_parent_dir_idempotent_witness :
  ∃ fs', ensure_parent_dir posix (joinpath sample_root "docs/api/openapi.md")
           fresh_fs = (Ok tt, fs') ∧
         ensure_parent_dir read_only (joinpath sample_root "docs/api/openapi.md")
           fs' = (Ok tt, fs').
Proof.
  set (p := joinpath sample_root "docs/api/openapi.md").
  exists (ensure_parent_dir posix p fresh_fs).2.
  split; [vm_compute; reflexivity|].
  apply (proj1 (ensure_parent_dir_idempotent read_only p _)).
  vm_compute. reflexivity.
Defined.

(** ** A regular file in the way *)

Lemma resolve_through_file fs (q r : path) :
  path_is_file fs q = true → r ≠ [] →
  resolve fs (r ++ q) = Raise NotADirectoryError.
Proof.
  intros Hq Hr. rewrite resolve_app.
  unfold path_is_file, stat in Hq.
  destruct (resolve fs q) as [[m s|m ch]|e]; [|done..].
  destruct r as [|c r _] using rev_ind; [done|].
  rewrite resolve_app. done.
Qed.

Lemma os_mkdir_blocked env p q fs :
  q `suffix_of` p → path_is_file fs q = true →
  os_mkdir env p fs =
    (Raise (match fault env (SysMkdir p) with
            | Some h => OSError h
            | None => if decide (q = p) then FileExistsError
                      else NotADirectoryError
            end), fs).
Proof.
  intros [r ->] Hq. unfold os_mkdir, refused, raise.
  destruct (fault env (SysMkdir (r ++ q))); [done|].
  destruct r as [|c r]; simpl.
  - rewrite decide_True by done. unfold path_is_file, stat in Hq.
    destruct q as [|c par]; [done|]. simpl in Hq.
    destruct (resolve fs par) as [d|e]; [|done].
    by destruct (child c d) as [[]|].
  - rewrite decide_False.
    2:{ intros H. apply (f_equal length) in H. simpl in H.
        rewrite length_app in H. lia. }
    destruct r as [|c' r].
    + simpl. unfold path_is_file, stat in Hq.
      by destruct (resolve fs q) as [[]|].
    + by rewrite (resolve_through_file fs q (c' :: r)).
Qed.

(** X3. A regular file where a directory is needed: if the parent of the
    target, or an ancestor of the parent, is a regular file, [write_file]
    raises and leaves the file system as it is, with or without
    [--overwrite].  Unless the platform refuses the [mkdir] for a reason
    of its own, the exception is [FileExistsError] when the file is the
    parent itself and [NotADirectoryError] when it is further up. *)
Theorem write_file_blocked_by_file env p content overwrite fs q :
  q `suffix_of` tail p →
  path_is_file fs q = true →
  write_file env p content overwrite fs =
    (Raise (match fault env (SysMkdir (tail p)) with
            | Some h => OSError h
            | None => if decide (q = tail p) then FileExistsError
                      else NotADirectoryError
            end), fs).
Proof.
  intros Hq Hf. unfold write_file, ensure_parent_dir, bind.
  assert (path_is_dir fs (tail p) = false) as Hnd.
  { destruct (path_is_dir fs (tail p)) eqn:Hd; [|done].
    pose proof (path_is_dir_above fs q (tail p) Hd Hq) as Hdq.
    unfold path_is_dir, path_is_file in *. by destruct (stat fs q) as [[]|]. }
  assert (∀ e, e ≠ FileNotFoundError →
            os_mkdir env (tail p) fs = (Raise e, fs) →
            mkdir_parents env true (tail p) fs = (Raise e, fs)) as Hraise.
  { intros e He Hmk.
    destruct (tail p) as [|c par]; simpl; unfold catch; rewrite Hmk;
      destruct e; try done;
      unfold mkdir_oserror, bind, is_dir; by rewrite Hnd. }
  pose proof (os_mkdir_blocked env (tail p) q fs Hq Hf) as Hmk.
  apply Hraise in Hmk; [by rewrite Hmk|].
  destruct (fault env (SysMkdir (tail p))); [done|]. by case_decide.
Qed.

Lemma write_file_blocked_by_file_witness :
  write_file posix (joinpath sample_root "README.md/notes.md") "x" true customised_fs
    = (Raise FileExistsError, customised_fs) ∧
  write_file posix (joinpath sample_root "README.md/a/b") "x" false customised_fs
    = (Raise NotADirectoryError, customised_fs).
Proof.
  split.
  - etrans;
      [apply (write_file_blocked_by_file posix
                (joinpath sample_root "README.md/notes.md") "x" true customised_fs
                (joinpath sample_root "README.md"));
         [exists []|]; vm_compute; reflexivity|].
    vm_compute. reflexivity.
  - etrans;
      [apply (write_file_blocked_by_file posix
                (joinpath sample_root "README.md/a/b") "x" false customised_fs
                (joinpath sample_root "README.md"));
         [exists ["a"]|]; vm_compute; reflexivity|].
    vm_compute. reflexivity.
Defined.

(** ** What [write_file] touches *)

Lemma write_text_frame env p content fs r fs' :
  write_text env p content fs = (r, fs') →
  ∀ q, q ≠ p → stat fs' q = stat fs q.
Proof.
  unfold write_text, bind. intros E q Hq.
  destruct (open_w env p fs) as [r1 fs1] eqn:E1.
  apply open_w_inv in E1 as [(e & -> & ->)|(-> & m & _ & Hu1)].
  { by injection E as _ <-. }
  apply write_data_inv in E as [(e & -> & ->)|(-> & Hu2)].
  - by rewrite (Hu1 q), decide_False.
  - by rewrite (Hu2 q), decide_False, (Hu1 q), decide_False.
Qed.

Lemma write_file_frame env p content overwrite fs r fs' q :
  write_file env p content overwrite fs = (r, fs') →
  q ≠ p →
  stat fs' q = stat fs q ∨
  (stat fs q = None ∧ q `suffix_of` tail p ∧
   stat fs' q = Some (IsDir (dir_mode env))).
Proof.
  unfold write_file, ensure_parent_dir, bind. intros E Hq.
  destruct (mkdir_parents env true (tail p) fs) as [r0 fs0] eqn:E0.
  apply mkdir_parents_inv in E0. specialize (E0 q).
  destruct r0 as [[]|e0]; [|by injection E as _ <-].
  unfold exists_ in E.
  destruct (path_exists fs0 p && negb overwrite); [by injection E as _ <-|].
  by rewrite (write_text_frame _ _ _ _ _ _ E q Hq).
Qed.

(** X4. In a tree where every entry has one path (no hard link, no
    symbolic link), [write_file] changes nothing but its target and the
    missing ancestors of the target, which it creates as directories:
    whatever the platform refuses, with or without [--overwrite],
    whether it returns or raises, every other path shows what it
    showed. *)
Theorem write_file_touches_only_target env p content overwrite fs q :
  q ≠ p →
  let fs' := (write_file env p content overwrite fs).2 in
  stat fs' q = stat fs q ∨
  (stat fs q = None ∧ q `suffix_of` tail p ∧
   stat fs' q = Some (IsDir (dir_mode env))).
Proof.
  intros Hq fs'. subst fs'.
  destruct (write_file env p content overwrite fs) as [r fs'] eqn:E.
  by eapply write_file_frame.
Qed.

Lemma write_file_touches_only_target_witness :
  stat (write_file posix (joinpath sample_root "docs/api/openapi.md")
          "x" true customised_fs).2 (joinpath sample_root "README.md")
    = Some (IsFile (octal 6 0 0) "my own notes") ∧
  stat (write_file posix (joinpath sample_root "docs/api/openapi.md")
          "x" true customised_fs).2 (joinpath sample_root "docs")
    = Some (IsDir (octal 7 5 5)).
Proof.
  split.
  - destruct (write_file_touches_only_target posix
                (joinpath sample_root "docs/api/openapi.md") "x" true
                customised_fs (joinpath sample_root "README.md"))
      as [H|(H & _)]; [by vm_compute| |by vm_compute in H].
    etrans; [exact H|]. vm_compute. reflexivity.
  - vm_compute. reflexivity.
Defined.

(** X5. Overwriting a regular file: with [--overwrite], on a platform
    that refuses neither the [open] nor the write of the target (it may
    refuse every [mkdir]), [write_file] on an existing regular file
    other than the root of the file system returns, replaces the bytes
    of the file by the content as text mode writes it and keeps the
    permission bits of the file; and in a tree where every entry has one
    path (the file has no other name, no hard link and no symbolic
    link), it changes no other path. *)
Theorem write_file_overwrites_in_place env p content fs m old :
  p ≠ [] →
  stat fs p = Some (IsFile m old) →
  fault env (SysOpen p) = None →
  fault env (SysWrite p) = None →
  ∃ fs', write_file env p content true fs = (Ok tt, fs') ∧
         stat fs' p
           = Some (IsFile m (translate_newlines (linesep env) content)) ∧
         ∀ q, q ≠ p → stat fs' q = stat fs q.
Proof.
  intros Hne Hp Hopen Hwrite.
  destruct p as [|c par]; [done|].
  assert (path_is_dir fs par = true) as Hpar by by eapply stat_parent.
  unfold write_file, ensure_parent_dir, bind, exists_. simpl.
  rewrite mkdir_parents_noop by done.
  rewrite andb_false_r.
  destruct (open_w_ok env c par fs Hopen Hpar) as [fs1 E1].
  { unfold path_is_dir. by rewrite Hp. }
  unfold write_text, bind. rewrite E1.
  apply open_w_inv in E1 as [(e & ? & _)|(_ & m1 & Hm1 & Hu1)]; [done|].
  destruct Hm1 as [[? _]|[s1 Hs1]]; [congruence|].
  assert (m1 = m) as -> by congruence.
  destruct (write_data env (c :: par)
              (translate_newlines (linesep env) content) fs1)
    as [r2 fs2] eqn:E2.
  pose proof E2 as E2'. unfold write_data, refused in E2'.
  rewrite Hwrite in E2'. injection E2' as <- _.
  apply write_data_inv in E2 as [(e & ? & _)|(_ & Hu2)]; [done|].
  exists fs2. split; [done|]. split.
  - by rewrite (Hu2 (c :: par)), decide_True, (Hu1 (c :: par)), decide_True.
  - intros q Hq. by rewrite (Hu2 q), decide_False, (Hu1 q), decide_False.
Qed.

Lemma write_file_overwrites_in_place_witness :
  ∃ fs', write_file no_chmod (joinpath sample_root "README.md") (lit "new\n")
           true customised_fs = (Ok tt, fs') ∧
         stat fs' (joinpath sample_root "README.md")
           = Some (IsFile (octal 6 0 0) (lit "new\n")).
Proof.
  destruct (write_file_overwrites_in_place no_chmod
              (joinpath sample_root "README.md") (lit "new\n") customised_fs
              (octal 6 0 0) "my own notes")
    as (fs' & E & Hp & _); [done|vm_compute; reflexivity|reflexivity..|].
  exists fs'. split; [exact E|]. etrans; [exact Hp|]. vm_compute. reflexivity.
Defined.

(** ** What a run touches *)

#[local] Instance changes_only_preorder env W D :
  PreOrder (changes_only env W D).
Proof.
  split.
  - intros fs q _. by left.
  - intros fs1 fs2 fs3 H12 H23 q Hq.
    destruct (H23 q Hq) as [E23|(Hn & Hs & E23)],
             (H12 q Hq) as [E12|(Hn' & Hs' & E12)].
    + left. congruence.
    + right. split_and!; [done..|congruence].
    + right. split_and!; [congruence|done..].
    + congruence.
Qed.

Section changes_only.
Context (env : platform) (W D : path → Prop).

Lemma mkdir_parents_changes_only ok p :
  (∀ q, q `suffix_of` p → ¬ W q → D q) →
  io_rel (changes_only env W D) (mkdir_parents env ok p).
Proof.
  intros HD fs r fs' E q Hq. apply mkdir_parents_inv in E.
  destruct (E q) as [?|(? & ? & ?)]; [by left|right]. split_and!; auto.
Qed.

Lemma write_file_changes_only p content overwrite :
  W p → (∀ q, q `suffix_of` tail p → ¬ W q → D q) →
  io_rel (changes_only env W D) (write_file env p content overwrite).
Proof.
  intros Hp HD fs r fs' E q Hq.
  destruct (write_file_frame _ _ _ _ _ _ _ q E) as [?|(? & ? & ?)];
    [by intros ->|by left|right].
  split_and!; auto.
Qed.

Lemma chmod_executable_changes_only root rp :
  W (joinpath root rp) →
  io_rel (changes_only env W D) (chmod_executable env root rp).
Proof.
  intros Hp fs r fs' E q Hq. left.
  destruct (chmod_executable_inv env root rp fs) as (fs1 & E1 & Hcase).
  rewrite E1 in E. injection E as _ <-.
  destruct Hcase as [[-> _]|(i & _ & _ & _ & Hu)]; [done|].
  rewrite (Hu q), decide_False; [done|]. by intros ->.
Qed.

Lemma run_changes_only root items relpaths overwrite :
  (∀ q, q `suffix_of` root → ¬ W q → D q) →
  (∀ rel, rel ∈ items.*1 →
     W (joinpath root rel) ∧
     ∀ q, q `suffix_of` tail (joinpath root rel) → ¬ W q → D q) →
  (∀ rp, rp ∈ relpaths → W (joinpath root rp)) →
  io_rel (changes_only env W D)
    (mkdir_parents env true root ;;
     write_all env root items overwrite ;;
     chmod_executables env root relpaths ;;
     ret (summary root)).
Proof.
  intros Hroot Hitems Hexec.
  apply io_rel_bind; [apply _|by apply mkdir_parents_changes_only|intros _].
  apply io_rel_bind; [apply _| |intros _].
  { apply io_rel_for_each; [apply _|]. intros [rel content] Hin.
    destruct (Hitems rel) as [HW HD].
    - apply list_elem_of_fmap. by exists (rel, content).
    - by apply write_file_changes_only. }
  apply io_rel_bind; [apply _| |intros _; apply io_rel_ret; apply _].
  apply io_rel_for_each; [apply _|]. intros rp Hrp.
  by apply chmod_executable_changes_only, Hexec.
Qed.
End changes_only.

Lemma executables_listed : executables ⊆ dict_keys REPO_STRUCTURE.
Proof.
  unfold subseteq, list_subseteq.
  apply (proj1 (Forall_forall (λ rp, rp ∈ dict_keys REPO_STRUCTURE) executables)).
  apply (bool_decide_unpack _). vm_compute. reflexivity.
Qed.


Lemma main_off_targets env root overwrite :
  io_rel (changes_only env (λ q, q ∈ joinpath root <$> dict_keys REPO_STRUCTURE)
            (λ _, True))
    (main env root overwrite).
Proof.
  pose proof executables_listed as Hex.
  change (dict_keys REPO_STRUCTURE) with (dict_items REPO_STRUCTURE).*1 in *.
  unfold main. revert Hex.
  generalize (dict_items REPO_STRUCTURE) as items. intros items Hex.
  apply run_changes_only.
  - auto.
  - intros rel Hin. split; [|auto]. apply list_elem_of_fmap. eauto.
  - intros rp Hrp. apply list_elem_of_fmap. eauto.
Qed.




(** X7. A run touches nothing but its targets, in a tree where every
    entry has one path (no target is a hard link or a symbolic link to
    something else): whatever the platform refuses, with or without
    [--overwrite], whether [main] returns or raises, a path that is not
    a key of the table joined to the root shows afterwards what it
    showed before, kind, permission bits and content, unless it was
    missing and is now a directory.  In such a tree no file the table
    does not list is created, changed or removed. *)
Theorem main_touches_only_targets env root overwrite fs q :
  (∀ rel, rel ∈ dict_keys REPO_STRUCTURE → q ≠ joinpath root rel) →
  let fs' := (main env root overwrite fs).2 in
  stat fs' q = stat fs q ∨
  (stat fs q = None ∧ stat fs' q = Some (IsDir (dir_mode env))).
Proof.
  intros Hq fs'. subst fs'.
  destruct (main env root overwrite fs) as [r fs'] eqn:E.
  destruct (main_off_targets env root overwrite fs r fs' E q)
    as [?|(? & _ & ?)]; [|by left|by right].
  intros (rel & -> & Hrel)%list_elem_of_fmap. by apply (Hq rel).
Qed.

Lemma main_touches_only_targets_witness :
  stat (main posix sample_root true untracked_fs).2
       (joinpath sample_root "notes.txt")
    = Some (IsFile (octal 6 0 0) "to do").
Proof.
  destruct (main_touches_only_targets posix sample_root true untracked_fs
              (joinpath sample_root "notes.txt")) as [H|(H & _)].
  - apply (proj1 (Forall_forall
               (λ rel, joinpath sample_root "notes.txt" ≠ joinpath sample_root rel)
               (dict_keys REPO_STRUCTURE))).
    apply (bool_decide_unpack _). vm_compute. reflexivity.
  - etrans; [exact H|]. vm_compute. reflexivity.
  - vm_compute in H. discriminate H.
Defined.

(** ** Permission bits of the files that are there *)

#[local] Instance file_modes_kept_preorder marked :
  PreOrder (file_modes_kept marked).
Proof.
  split.
  - intros fs q m s H. exists m, s. auto.
  - intros fs1 fs2 fs3 H12 H23 q m s H.
    destruct (H12 q m s H) as (m2 & s2 & H2 & Hm2).
    destruct (H23 q m2 s2 H2) as (m3 & s3 & H3 & Hm3).
    exists m3, s3. split; [done|].
    destruct Hm3 as [->|[-> ?]]; [exact Hm2|by right].
Qed.

Lemma entries_kept_file_modes marked fs fs' :
  entries_kept fs fs' → file_modes_kept marked fs fs'.
Proof. intros H q m s Hq. exists m, s. split; [by apply H|by left]. Qed.

Lemma write_text_file_modes marked env p content :
  io_rel (file_modes_kept marked) (write_text env p content).
Proof.
  intros fs r fs' E q m s Hq. unfold write_text, bind in E.
  destruct (open_w env p fs) as [r1 fs1] eqn:E1.
  apply open_w_inv in E1 as [(e & -> & ->)|(-> & m1 & Hm1 & Hu1)].
  { injection E as _ <-. exists m, s. auto. }
  assert (∃ s1, stat fs1 q = Some (IsFile m s1)) as [s1 Hq1].
  { rewrite (Hu1 q). case_decide as Hqp; [|by eauto]. subst q.
    destruct Hm1 as [[? _]|[s0 Hs0]]; [congruence|].
    exists EmptyString. congruence. }
  apply write_data_inv in E as [(e & -> & ->)|(-> & Hu2)].
  { exists m, s1. auto. }
  rewrite (Hu2 q). case_decide as Hqp.
  - subst q. rewrite Hq1. simpl. eauto.
  - eauto.
Qed.

Lemma write_file_file_modes marked env p content overwrite :
  io_rel (file_modes_kept marked) (write_file env p content overwrite).
Proof.
  unfold write_file.
  apply io_rel_bind; [apply _| |intros _].
  { eapply io_rel_mono; [apply entries_kept_file_modes|].
    apply ensure_parent_dir_entries. }
  apply io_rel_bind; [apply _|apply io_rel_exists; apply _|intros e].
  destruct (e && negb overwrite); [apply io_rel_ret; apply _|].
  apply write_text_file_modes.
Qed.

Lemma chmod_executable_file_modes env root rp marked :
  joinpath root rp ∈ marked →
  io_rel (file_modes_kept marked) (chmod_executable env root rp).
Proof.
  intros Hin fs r fs' E q m s Hq.
  destruct (chmod_executable_inv env root rp fs) as (fs1 & E1 & Hcase).
  rewrite E1 in E. injection E as _ <-.
  destruct Hcase as [[-> _]|(i & Hi & _ & _ & Hu)]; [exists m, s; auto|].
  rewrite (Hu q). case_decide as Hqp; [|exists m, s; auto].
  subst q. rewrite Hq in Hi. injection Hi as <-. simpl.
  exists (octal 7 5 5), s. auto.
Qed.

Lemma main_file_modes env root overwrite :
  io_rel (file_modes_kept (joinpath root <$> executables))
    (main env root overwrite).
Proof.
  unfold main. generalize (dict_items REPO_STRUCTURE) as items. intros items.
  apply io_rel_bind; [apply _| |intros _].
  { intros fs r fs' E. eapply entries_kept_file_modes, mkdirs_rel_entries.
    by eapply mkdir_parents_inv. }
  apply io_rel_bind; [apply _| |intros _].
  { apply io_rel_for_each; [apply _|]. intros [rel content] _.
    apply write_file_file_modes. }
  apply io_rel_bind; [apply _| |intros _; apply io_rel_ret; apply _].
  apply io_rel_for_each; [apply _|]. intros rp Hrp.
  apply chmod_executable_file_modes, list_elem_of_fmap. eauto.
Qed.

(** X8. Permission bits of existing files: whatever the platform
    refuses, with or without [--overwrite], whether [main] returns or
    raises, a regular file that was there is a regular file afterwards,
    with the permission bits it had or with [0o755]; and in a tree where
    every entry has one path (a file has no second name), the bits are
    [0o755] instead of what they were only at a path that the list of
    executables names.  Rewriting a file does not reset its permission
    bits. *)
Theorem main_keeps_file_modes env root overwrite fs q m s :
  stat fs q = Some (IsFile m s) →
  let fs' := (main env root overwrite fs).2 in
  path_is_file fs' q = true ∧
  (mode_of fs' q = Some m ∨
   mode_of fs' q = Some (octal 7 5 5) ∧ ∃ rp, rp ∈ executables ∧ q = joinpath root rp).
Proof.
  intros Hq fs'. subst fs'.
  destruct (main env root overwrite fs) as [r fs'] eqn:E.
  destruct (main_file_modes env root overwrite fs r fs' E q m s Hq)
    as (m' & s' & Hq' & Hm).
  unfold path_is_file, mode_of. simpl. rewrite Hq'. split; [done|].
  destruct Hm as [->|[-> (rp & -> & Hrp)%list_elem_of_fmap]]; [by left|right].
  eauto.
Qed.

Lemma main_keeps_file_modes_witness :
  mode_of (main posix sample_root true customised_fs).2
      (joinpath sample_root "README.md") = Some (octal 6 0 0) ∧
  read_bytes (main posix sample_root true customised_fs).2
      (joinpath sample_root "README.md")
    = Some (lit "# ASV\n\nMonorepo scaffold.\n").
Proof.
  split; [|vm_compute; reflexivity].
  destruct (main_keeps_file_modes posix sample_root true customised_fs
              (joinpath sample_root "README.md") (octal 6 0 0) "my own notes")
    as (_ & [H|(_ & rp & Hrp & Hq)]).
  - vm_compute. reflexivity.
  - exact H.
  - exfalso. revert rp Hrp Hq.
    apply (proj1 (Forall_forall
             (λ rp, joinpath sample_root "README.md" = joinpath sample_root rp
                    → False) executables)).
    apply (bool_decide_unpack _). vm_compute. reflexivity.
Defined.

(** ** A root that does not exist yet *)

Lemma clear_for_absent_root fs root T :
  stat fs root = None → root_reachable fs root →
  Forall (λ p, p ≠ []) T →
  clear_for ((.++ root) <$> T) fs.
Proof.
  intros Hnone Hreach HT p [r [-> Hr]]%list_elem_of_fmap.
  assert (∀ r' : path, stat fs (r' ++ root) = None) as Hunder.
  { intros r'. unfold stat in *. rewrite resolve_app.
    by destruct (resolve fs root). }
  split.
  - unfold path_is_dir. by rewrite Hunder.
  - intros q [Hq|(r' & _ & ->)]%suffix_app_cases _; [by apply Hreach|].
    unfold path_is_file. by rewrite Hunder.
Qed.

(** X9. The root is created when it is missing: if the root does not
    exist and no regular file sits at one of its ancestors, then on a
    platform that lets the writer write [main] returns, the root is a
    directory, and every key of the table is a regular file holding the
    content the table defines, as text mode writes it. *)
Theorem main_creates_missing_root env root overwrite fs :
  writes_allowed env →
  stat fs root = None →
  root_reachable fs root →
  ∃ fs', main env root overwrite fs = (Ok (summary root), fs') ∧
         path_is_dir fs' root = true ∧
         ∀ rel content, dict_get REPO_STRUCTURE rel = Some content →
           read_bytes fs' (joinpath root rel)
             = Some (translate_newlines (linesep env) content).
Proof.
  intros Henv Hnone Hreach.
  pose proof REPO_STRUCTURE_table_ok as Htab.
  assert (clear_for (targets root (dict_items REPO_STRUCTURE)).*1 fs) as Hclear.
  { destruct Htab as [Hrel (_ & Hne & _)]. rewrite targets_fst by exact Hrel.
    by apply clear_for_absent_root. }
  destruct (main_ok env root overwrite fs Henv Hreach Hclear)
    as (fs0 & fs1 & fs2 & _ & E1 & _ & E & Hd0 & Hmodes & Hcont).
  exists fs2. split; [exact E|]. split.
  - eapply kinds_kept_dir; [by apply modes_changed_kinds|].
    eapply kinds_kept_dir; [by eapply write_all_kinds|exact Hd0].
  - intros rel content Hget%dict_get_elem_of.
    assert (stat fs (joinpath root rel) = None) as Hn.
    { destruct Htab as [Hrel _]. rewrite Forall_forall in Hrel.
      rewrite joinpath_relative.
      - unfold stat in *. rewrite resolve_app. by destruct (resolve fs root).
      - apply Hrel, list_elem_of_fmap. by exists (rel, content). }
    rewrite (modes_changed_read fs1 fs2) by exact Hmodes.
    rewrite (read_written_gen env overwrite content fs fs1 (joinpath root rel));
      [|unfold path_is_dir; by rewrite Hn|exact (Hcont _ _ Hget)].
    unfold read_bytes. by rewrite Hn.
Qed.

Lemma main_creates_missing_root_witness :
  path_exists rootless_fs sample_root = false ∧
  ∃ fs', main posix sample_root false rootless_fs = (Ok (summary sample_root), fs') ∧
         path_is_dir fs' sample_root = true ∧
         read_bytes fs' (joinpath sample_root "SECURITY.md")
           = Some (lit "# Security\n\nReport issues responsibly.\n").
Proof.
  split; [vm_compute; reflexivity|].
  destruct (main_creates_missing_root posix sample_root false rootless_fs
              posix_writes_allowed) as (fs' & E & Hd & Hread).
  - vm_compute. reflexivity.
  - intros q [k Hk]. unfold sample_root in Hk.
    destruct k as [|? [|? [|? k]]]; simplify_eq/=; vm_compute; reflexivity.
  - exists fs'. split; [exact E|]. split; [exact Hd|].
    etrans; [apply Hread; vm_compute; reflexivity|]. vm_compute. reflexivity.
Defined.

(** ** Running again *)















(** ** The order of the table *)

Lemma targets_ok_perm (T T' : list path) :
  T ≡ₚ T' → targets_ok T → targets_ok T'.
Proof.
  intros HP (Hnd & Hne & Hsuf). split_and!.
  - by rewrite <-HP.
  - by rewrite <-HP.
  - rewrite Forall_forall in Hsuf. apply Forall_forall. intros p Hp.
    rewrite <-HP in Hp. specialize (Hsuf p Hp).
    by rewrite <-HP.
Qed.

Lemma clear_for_perm (T T' : list path) fs :
  T ≡ₚ T' → clear_for T fs → clear_for T' fs.
Proof. intros HP H p Hp. apply H. by rewrite HP. Qed.

(** What the loop leaves at every path, when nothing is in its way. *)
Lemma write_targets_stat env T overwrite fs fs' :
  writes_allowed env → targets_ok T.*1 → clear_for T.*1 fs →
  write_targets env T overwrite fs = (Ok tt, fs') →
  (∀ p content, (p, content) ∈ T →
     stat fs' p = written env overwrite content (stat fs p)) ∧
  (∀ q, q ∉ T.*1 → (∃ p, p ∈ T.*1 ∧ q `suffix_of` p) →
     stat fs' q = Some (default (IsDir (dir_mode env)) (stat fs q))) ∧
  (∀ q, (∀ p, p ∈ T.*1 → ¬ q `suffix_of` p) → stat fs' q = stat fs q).
Proof.
  intros Henv HT Hclear E.
  destruct (write_targets_ok env T overwrite fs Henv HT Hclear)
    as (fs'' & E' & Hat & Hoff).
  rewrite E in E'. injection E' as <-.
  split_and!; [exact Hat| |exact Hoff].
  intros q Hq (p & Hp & [r ->]).
  assert (path_is_dir fs' q = true) as [m Hm]%path_is_dir_stat.
  { apply list_elem_of_fmap in Hp as ([p' content] & Hp' & Hin).
    simpl in Hp'. subst p'.
    pose proof (written_exists _ _ _ _ _ _ (Hat _ _ Hin)) as [i Hi]%path_exists_stat.
    eapply (stat_ancestor _ r q); [exact Hi|].
    intros ->. apply Hq, list_elem_of_fmap. by exists (q, content). }
  assert (io_rel (changes_only env (λ q, q ∈ T.*1) (λ _, True))
            (write_targets env T overwrite)) as Hrel.
  { apply io_rel_for_each; [apply _|]. intros [p content] Hin.
    apply write_file_changes_only; [|done].
    apply list_elem_of_fmap. by exists (p, content). }
  destruct (Hrel fs _ fs' E q Hq) as [Hsame|(Hnone & _ & Hdir)].
  - rewrite <-Hsame, Hm. done.
  - by rewrite Hnone, Hdir.
Qed.

(** X11. The order of the items does not matter for a table like
    [REPO_STRUCTURE]: one whose keys are relative paths that denote
    distinct targets, none of them below another ([table_ok]; two keys
    for one path, such as [a] and [./a], are excluded).  For such a
    table, on a platform that lets the writer write, when nothing is in
    the way of the targets (and, as everywhere in this tree, no two
    targets are names of one file), the loop of [main] over the items
    and the loop over any rearrangement of them both return, and the
    states they leave show the same kind, permission bits and content at
    every path. *)
Theorem write_all_order_irrelevant env root items items' overwrite fs :
  items ≡ₚ items' →
  writes_allowed env →
  table_ok items →
  clear_for (targets root items).*1 fs →
  ∃ fs1 fs2,
    write_all env root items overwrite fs = (Ok tt, fs1) ∧
    write_all env root items' overwrite fs = (Ok tt, fs2) ∧
    ∀ q, stat fs1 q = stat fs2 q.
Proof.
  intros HP Henv Htab Hclear. rewrite !write_all_targets.
  pose proof (targets_ok_root root items Htab) as HT.
  assert (targets root items ≡ₚ targets root items') as HPT
    by (unfold targets; by rewrite HP).
  assert ((targets root items).*1 ≡ₚ (targets root items').*1) as HP1
    by by rewrite HPT.
  pose proof (targets_ok_perm _ _ HP1 HT) as HT'.
  pose proof (clear_for_perm _ _ fs HP1 Hclear) as Hclear'.
  destruct (write_targets_ok env _ overwrite fs Henv HT Hclear)
    as (fs1 & E1 & _).
  destruct (write_targets_ok env _ overwrite fs Henv HT' Hclear')
    as (fs2 & E2 & _).
  exists fs1, fs2. split; [exact E1|]. split; [exact E2|].
  destruct (write_targets_stat env _ overwrite fs fs1 Henv HT Hclear E1)
    as (Ha1 & Hb1 & Hc1).
  destruct (write_targets_stat env _ overwrite fs fs2 Henv HT' Hclear' E2)
    as (Ha2 & Hb2 & Hc2).
  intros q.
  destruct (decide (q ∈ (targets root items).*1)) as [Hq|Hq].
  { apply list_elem_of_fmap in Hq as ([p content] & -> & Hin). simpl.
    rewrite (Ha1 _ _ Hin). symmetry. apply Ha2. by rewrite <-HPT. }
  destruct (decide (Exists (λ p, q `suffix_of` p) (targets root items).*1))
    as [Hex|Hex].
  - apply Exists_exists in Hex as (p & Hp & Hs).
    rewrite Hb1 by eauto. symmetry. apply Hb2.
    + by rewrite <-HP1.
    + exists p. split; [by rewrite <-HP1|done].
  - rewrite Hc1, Hc2; [done| |].
    + intros p Hp Hs. apply Hex, Exists_exists. exists p.
      split; [by rewrite HP1|done].
    + intros p Hp Hs. apply Hex, Exists_exists. eauto.
Qed.

Lemma write_all_order_irrelevant_witness :
  ∃ fs1 fs2,
    write_all posix sample_root (dict_items REPO_STRUCTURE) false fresh_fs
      = (Ok tt, fs1) ∧
    write_all posix sample_root (reverse (dict_items REPO_STRUCTURE)) false fresh_fs
      = (Ok tt, fs2) ∧
    ∀ q, stat fs1 q = stat fs2 q.
Proof.
  apply write_all_order_irrelevant.
  - symmetry. apply reverse_Permutation.
  - exact posix_writes_allowed.
  - exact REPO_STRUCTURE_table_ok.
  - apply clear_forb_sound. vm_compute. reflexivity.
Defined.

(** ** The loops that generate entries *)

Lemma string_app_length s t :
  String.length (s +:+ t) = String.length s + String.length t.
Proof.
  induction s as [|a s IH]; [done|].
  change (S (String.length (s +:+ t)) = S (String.length s + String.length t)).
  by rewrite IH.
Qed.

Lemma string_app_assoc s t u : (s +:+ t) +:+ u = s +:+ t +:+ u.
Proof.
  induction s as [|a s IH]; [done|].
  change (String a ((s +:+ t) +:+ u) = String a (s +:+ t +:+ u)).
  by rewrite IH.
Qed.

(** Two ways to split a string before suffixes of the same length are
    the same split. *)
Lemma string_app_inj_suffix s s' t t' :
  String.length t = String.length t' →
  s +:+ t = s' +:+ t' → s = s' ∧ t = t'.
Proof.
  intros Hlen. revert s'.
  induction s as [|a s IH]; intros [|a' s'] H.
  - done.
  - apply (f_equal String.length) in H. simpl in H.
    change (String.length t = S (String.length (s' +:+ t'))) in H.
    rewrite string_app_length in H. lia.
  - apply (f_equal String.length) in H. simpl in H.
    change (S (String.length (s +:+ t)) = String.length t') in H.
    rewrite string_app_length in H. lia.
  - change (String a (s +:+ t) = String a' (s' +:+ t')) in H.
    injection H as -> H. by destruct (IH _ H) as [-> ->].
Qed.

#[local] Instance service_src_inj : Inj (=) (=) service_src.
Proof.
  intros s s' H. unfold service_src in H. apply String.app_inj in H.
  by apply string_app_inj_suffix in H as [-> _].
Qed.

#[local] Instance service_tests_inj : Inj (=) (=) service_tests.
Proof.
  intros s s' H. unfold service_tests in H. apply String.app_inj in H.
  by apply string_app_inj_suffix in H as [-> _].
Qed.

Lemma service_src_tests s s' : service_src s ≠ service_tests s'.
Proof.
  unfold service_src, service_tests. intros H. apply String.app_inj in H.
  change "/tests/README.md" with ("/t" +:+ "ests/README.md") in H.
  rewrite <-(string_app_assoc s') in H.
  by apply string_app_inj_suffix in H as [_ ?].
Qed.

Lemma dict_get_set d k v k' :
  dict_get (dict_set d k v) k' = if decide (k' = k) then Some v else dict_get d k'.
Proof.
  induction d as [|[k0 v0] d IH]; simpl.
  - by repeat case_decide; simplify_eq.
  - destruct (decide (k0 = k)) as [->|Hk]; simpl.
    + by repeat case_decide; simplify_eq.
    + rewrite IH. by repeat case_decide; simplify_eq.
Qed.

Lemma dict_keys_set d k v : dict_keys d `prefix_of` dict_keys (dict_set d k v).
Proof.
  unfold dict_keys. induction d as [|[k0 v0] d IH]; simpl.
  - apply prefix_nil.
  - case_decide; simpl; [done|]. by apply prefix_cons.
Qed.

Lemma dict_update_snoc d items k v :
  dict_update d (items ++ [(k, v)]) = dict_set (dict_update d items) k v.
Proof. unfold dict_update. by rewrite foldl_snoc. Qed.

(** [d.update(items)]: a key takes the value of the last item that names
    it; the other keys keep their value; the keys that were there keep
    their place. *)
Lemma dict_get_update_Some d items k v :
  (k, v) ∈ items → (∀ v', (k, v') ∈ items → v' = v) →
  dict_get (dict_update d items) k = Some v.
Proof.
  induction items as [|[k0 v0] items IH] using rev_ind; intros Hin Huniq.
  { by apply elem_of_nil in Hin. }
  rewrite dict_update_snoc, dict_get_set. case_decide as Hk.
  - subst k0. f_equal. apply Huniq, elem_of_app. right. left.
  - apply IH.
    + apply elem_of_app in Hin as [?|Hin]; [done|].
      apply list_elem_of_singleton in Hin. by simplify_eq.
    + intros v' Hv'. apply Huniq, elem_of_app. by left.
Qed.

Lemma dict_get_update_None d items k :
  k ∉ items.*1 → dict_get (dict_update d items) k = dict_get d k.
Proof.
  induction items as [|[k0 v0] items IH] using rev_ind; intros Hk; [done|].
  rewrite fmap_app, not_elem_of_app in Hk. destruct Hk as [Hk Hk0].
  rewrite dict_update_snoc, dict_get_set, decide_False; [by apply IH|].
  intros ->. apply Hk0. left.
Qed.

Lemma dict_keys_update d items :
  dict_keys d `prefix_of` dict_keys (dict_update d items).
Proof.
  induction items as [|[k0 v0] items IH] using rev_ind; [done|].
  rewrite dict_update_snoc. etrans; [exact IH|]. apply dict_keys_set.
Qed.

Lemma add_service_loop d names :
  foldl add_service d names = dict_update d (names ≫= service_assignments).
Proof.
  revert d. induction names as [|svc names IH]; intros d; [done|].
  simpl. by rewrite IH.
Qed.

Lemma add_feature_loop d names :
  foldl add_feature d names = dict_update d (names ≫= feature_assignments).
Proof.
  revert d. induction names as [|x names IH]; intros d; [done|].
  simpl. by rewrite IH.
Qed.

Lemma add_model_loop d names :
  foldl add_model d names = dict_update d (names ≫= model_assignments).
Proof.
  revert d. induction names as [|x names IH]; intros d; [done|].
  simpl. by rewrite IH.
Qed.

(** X12. The service loop, for any list of names and any table it starts
    from: every name in the list ends with its two keys,
    [backend/services/<name>/src/README.md] holding [# <name>] and
    [backend/services/<name>/tests/README.md] holding
    [# tests for <name>], each followed by a newline; a key that is not
    one of these keeps the value it had, or stays absent; and the keys
    that were in the table keep their place at the front of it. *)
Theorem service_loop_entries d names :
  let d' := foldl add_service d names in
  (∀ svc, svc ∈ names →
     dict_get d' (service_src svc) = Some ("# " +:+ svc +:+ nl) ∧
     dict_get d' (service_tests svc) = Some ("# tests for " +:+ svc +:+ nl)) ∧
  (∀ k, (∀ svc, svc ∈ names → k ≠ service_src svc ∧ k ≠ service_tests svc) →
     dict_get d' k = dict_get d k) ∧
  dict_keys d `prefix_of` dict_keys d'.
Proof.
  intros d'. subst d'. rewrite add_service_loop. split_and!.
  - intros svc Hsvc. split.
    + apply dict_get_update_Some.
      * apply list_elem_of_bind. exists svc. split; [left|done].
      * intros v' (svc' & Hin & _)%list_elem_of_bind.
        apply elem_of_cons in Hin as [Heq|Hin].
        { apply pair_equal_spec in Heq as [H ->].
          by apply (inj service_src) in H as ->. }
        apply list_elem_of_singleton, pair_equal_spec in Hin as [H _].
        by apply service_src_tests in H.
    + apply dict_get_update_Some.
      * apply list_elem_of_bind. exists svc. split; [right; left|done].
      * intros v' (svc' & Hin & _)%list_elem_of_bind.
        apply elem_of_cons in Hin as [Heq|Hin].
        { apply pair_equal_spec in Heq as [H _]. symmetry in H.
          by apply service_src_tests in H. }
        apply list_elem_of_singleton, pair_equal_spec in Hin as [H ->].
        by apply (inj service_tests) in H as ->.
  - intros k Hk. apply dict_get_update_None.
    intros ([k' v] & -> & (svc & Hin & Hsvc)%list_elem_of_bind)%list_elem_of_fmap.
    destruct (Hk svc Hsvc) as [Hsrc Htests]. simpl in *.
    apply elem_of_cons in Hin as [Heq|Hin].
    { by apply pair_equal_spec in Heq as [? _]. }
    by apply list_elem_of_singleton, pair_equal_spec in Hin as [? _].
  - apply dict_keys_update.
Qed.

Lemma service_loop_entries_witness :
  dict_get (foldl add_service [("README.md", "x")] ["billing"; "auth"; "billing"])
      "backend/services/billing/tests/README.md"
    = Some (lit "# tests for billing\n") ∧
  dict_get (foldl add_service [("README.md", "x")] ["billing"; "auth"; "billing"])
      "README.md"
    = Some "x".
Proof.
  destruct (service_loop_entries [("README.md", "x")] ["billing"; "auth"; "billing"])
    as (Hin & Hout & _).
  split.
  - etrans; [apply (Hin "billing"); left|]. vm_compute. reflexivity.
  - etrans; [apply Hout|reflexivity].
    intros svc Hsvc. split; intros H.
    + by apply (f_equal (λ s, String.get 0 s)) in H.
    + by apply (f_equal (λ s, String.get 0 s)) in H.
Defined.

Lemma keyed_inj (pre post : string) :
  Inj (=) (=) (λ x, pre +:+ x +:+ post).
Proof.
  intros x y H. apply String.app_inj in H.
  by apply string_app_inj_suffix in H as [-> _].
Qed.

(** X13. The feature loop and the model loop, for any list of names and
    any table they start from: every name in the list ends with its key,
    [apps/operator_flutter/lib/features/<name>/README.md] or
    [ml/models/<name>/README.md], holding [# <name>] and a newline; a
    key that is not one of these keeps the value it had, or stays
    absent; and the keys that were in the table keep their place. *)
Theorem feature_and_model_loop_entries d names :
  let df := foldl add_feature d names in
  let dm := foldl add_model d names in
  (∀ x, x ∈ names →
     dict_get df ("apps/operator_flutter/lib/features/" +:+ x +:+ "/README.md")
       = Some ("# " +:+ x +:+ nl) ∧
     dict_get dm ("ml/models/" +:+ x +:+ "/README.md")
       = Some ("# " +:+ x +:+ nl)) ∧
  (∀ k, (∀ x, x ∈ names →
           k ≠ "apps/operator_flutter/lib/features/" +:+ x +:+ "/README.md") →
        dict_get df k = dict_get d k) ∧
  (∀ k, (∀ x, x ∈ names → k ≠ "ml/models/" +:+ x +:+ "/README.md") →
        dict_get dm k = dict_get d k) ∧
  dict_keys d `prefix_of` dict_keys df ∧
  dict_keys d `prefix_of` dict_keys dm.
Proof.
  intros df dm. subst df dm. rewrite add_feature_loop, add_model_loop.
  split_and!.
  - intros x Hx. split.
    + apply dict_get_update_Some.
      * apply list_elem_of_bind. exists x. split; [left|done].
      * intros v' (y & Hin & _)%list_elem_of_bind.
        apply list_elem_of_singleton, pair_equal_spec in Hin as [H ->].
        by apply keyed_inj in H as ->.
    + apply dict_get_update_Some.
      * apply list_elem_of_bind. exists x. split; [left|done].
      * intros v' (y & Hin & _)%list_elem_of_bind.
        apply list_elem_of_singleton, pair_equal_spec in Hin as [H ->].
        by apply keyed_inj in H as ->.
  - intros k Hk. apply dict_get_update_None.
    intros ([k' v] & -> & (x & Hin & Hx)%list_elem_of_bind)%list_elem_of_fmap.
    apply list_elem_of_singleton, pair_equal_spec in Hin as [H _].
    by apply (Hk x).
  - intros k Hk. apply dict_get_update_None.
    intros ([k' v] & -> & (x & Hin & Hx)%list_elem_of_bind)%list_elem_of_fmap.
    apply list_elem_of_singleton, pair_equal_spec in Hin as [H _].
    by apply (Hk x).
  - apply dict_keys_update.
  - apply dict_keys_update.
Qed.

Lemma feature_and_model_loop_entries_witness :
  dict_get (foldl add_feature [] ["billing"])
      "apps/operator_flutter/lib/features/billing/README.md"
    = Some (lit "# billing\n") ∧
  dict_get (foldl add_model [] ["billing"]) "ml/models/billing/README.md"
    = Some (lit "# billing\n").
Proof.
  destruct (feature_and_model_loop_entries [] ["billing"]) as (Hin & _).
  destruct (Hin "billing") as [Hf Hm]; [left|].
  split; (etrans; [first [exact Hf|exact Hm]|]); vm_compute; reflexivity.
Defined.

(** ** When the flag makes no difference *)

Lemma write_file_missing env p content fs :
  path_exists fs p = false →
  write_file env p content true fs = write_file env p content false fs.
Proof.
  intros He. unfold write_file, ensure_parent_dir, bind.
  destruct (mkdir_parents env true (tail p) fs) as [[[]|e0] fs0] eqn:E0; [|done].
  unfold exists_.
  assert (path_exists fs0 p = false) as ->; [|done].
  apply mkdir_parents_inv in E0. unfold path_exists in *.
  destruct (E0 p) as [->|(_ & Hs & _)]; [done|].
  apply suffix_length in Hs. destruct p; simpl in *; [done|lia].
Qed.

Lemma write_targets_missing env T fs :
  targets_ok T.*1 →
  (∀ p, p ∈ T.*1 → path_exists fs p = false) →
  write_targets env T true fs = write_targets env T false fs.
Proof.
  unfold write_targets. revert fs.
  induction T as [|[p content] T IH]; intros fs HT Hmiss; [done|].
  rewrite fmap_cons in HT. cbn [fst] in HT.
  apply targets_ok_cons in HT as (HT & HpT & Hp0 & Hsuf).
  simpl. unfold bind. rewrite write_file_missing by (apply Hmiss; left).
  destruct (write_file env p content false fs) as [[[]|e] fs1] eqn:E; [|done].
  apply IH; [done|]. intros p' Hp'.
  assert (p' ≠ p) as Hne by by intros ->.
  specialize (Hmiss p' (list_elem_of_further _ _ _ Hp')).
  unfold path_exists in *.
  destruct (write_file_frame _ _ _ _ _ _ _ p' E Hne) as [->|(_ & Hs & _)];
    [done|].
  destruct (Hsuf p' Hp') as [_ []].
  etrans; [exact Hs|]. destruct p; [done|]. by apply suffix_cons_r.
Qed.

Lemma run_flag_irrelevant env root items relpaths (out : list string) fs :
  table_ok items →
  (∀ rel, rel ∈ items.*1 → path_exists fs (joinpath root rel) = false) →
  (mkdir_parents env true root ;;
   write_all env root items true ;;
   chmod_executables env root relpaths ;;
   ret out) fs =
  (mkdir_parents env true root ;;
   write_all env root items false ;;
   chmod_executables env root relpaths ;;
   ret out) fs.
Proof.
  intros Htab Hmiss. unfold bind.
  destruct (mkdir_parents env true root fs) as [[[]|e0] fs0] eqn:E0; [|done].
  rewrite !write_all_targets, write_targets_missing; [done|..].
  - by apply targets_ok_root.
  - intros p Hp. apply mkdir_parents_inv in E0.
    destruct Htab as [Hrel (_ & Hne & _)].
    rewrite targets_fst in Hp by done. rewrite Forall_forall in Hrel. rewrite Forall_forall in Hne.
    apply list_elem_of_fmap in Hp as (r & -> & Hr).
    pose proof (Hne r Hr) as Hr0.
    apply list_elem_of_fmap in Hr as (rel & -> & Hin).
    specialize (Hmiss rel Hin). rewrite joinpath_relative in Hmiss by auto.
    unfold path_exists in *.
    destruct (E0 (rel_path rel ++ root)) as [->|(_ & Hs & _)]; [done|].
    apply suffix_length in Hs. rewrite length_app in Hs.
    destruct (rel_path rel); simpl in *; [done|lia].
Qed.

(** X14. The flag matters only for what is there: when the target does
    not exist, [write_file] does the same with and without
    [--overwrite]; and when no key of the table exists under the root,
    a whole run does the same with and without it, on any platform,
    whether it returns or raises. *)
Theorem overwrite_irrelevant_when_missing env root fs :
  (∀ p content, path_exists fs p = false →
     write_file env p content true fs = write_file env p content false fs) ∧
  ((∀ rel, rel ∈ dict_keys REPO_STRUCTURE →
      path_exists fs (joinpath root rel) = false) →
   main env root true fs = main env root false fs).
Proof.
  split.
  - intros p content. apply write_file_missing.
  - intros Hmiss.
    exact (run_flag_irrelevant env root (dict_items REPO_STRUCTURE) executables
             (summary root) fs REPO_STRUCTURE_table_ok Hmiss).
Qed.

Lemma overwrite_irrelevant_when_missing_witness :
  main disk_full sample_root true fresh_fs
    = main disk_full sample_root false fresh_fs.
Proof.
  apply (overwrite_irrelevant_when_missing disk_full sample_root fresh_fs).
  apply (proj1 (Forall_forall
           (λ rel, path_exists fresh_fs (joinpath sample_root rel) = false)
           (dict_keys REPO_STRUCTURE))).
  apply (bool_decide_unpack _). vm_compute. reflexivity.
Defined.

(** ** Nothing to write *)

Lemma run_complete env root items relpaths (out : list string) fs :
  table_ok items → items ≠ [] →
  (∀ rel, rel ∈ items.*1 → path_exists fs (joinpath root rel) = true) →
  ∃ fs', (mkdir_parents env true root ;;
          write_all env root items false ;;
          chmod_executables env root relpaths ;;
          ret out) fs = (Ok out, fs') ∧
         modes_changed fs fs'.
Proof.
  intros Htab Hne0 Hall.
  pose proof (targets_ok_root root items Htab) as (_ & Hne & _).
  rewrite Forall_forall in Hne.
  assert (path_is_dir fs root = true) as Hd.
  { destruct items as [|[rel content] items]; [done|].
    destruct Htab as [Hrel (_ & Hne' & _)].
    apply Forall_cons in Hrel as [Hrel _]. apply Forall_cons in Hne' as [Hr _].
    simpl in *.
    specialize (Hall rel (list_elem_of_here _ _)).
    rewrite joinpath_relative in Hall by done.
    apply path_exists_stat in Hall as [i Hi]. by eapply stat_ancestor. }
  destruct (chmod_executables_returns env root relpaths fs) as [fs' E].
  exists fs'. split; [|by eapply chmod_executables_modes].
  unfold bind. rewrite mkdir_parents_noop by done.
  rewrite write_all_targets, write_targets_skip, E; [done|].
  intros p Hp. split; [by apply Hne|].
  apply list_elem_of_fmap in Hp as ([p' content] & -> & Hp).
  apply list_elem_of_fmap in Hp as ([rel content'] & [= -> _] & Hin).
  apply Hall, list_elem_of_fmap. by exists (rel, content').
Qed.

(** X15. Nothing to write: when every key of the table exists under the
    root, a run without [--overwrite] returns on any platform, one that
    refuses every [mkdir], [open] and write included; it creates
    nothing and writes nothing, and the state it leaves differs from the
    one it found in permission bits at most. *)
Theorem complete_scaffold_needs_no_write env root fs :
  scaffold_complete fs root = true →
  ∃ fs', main env root false fs = (Ok (summary root), fs') ∧
         modes_changed fs fs'.
Proof.
  unfold scaffold_complete. rewrite forallb_forall. intros Hall.
  assert (dict_items REPO_STRUCTURE ≠ []) as Hne by (vm_compute; congruence).
  apply (run_complete env root (dict_items REPO_STRUCTURE) executables
           (summary root) fs REPO_STRUCTURE_table_ok Hne).
  intros rel Hrel. apply Hall, list_elem_of_In, Hrel.
Qed.

Lemma complete_scaffold_needs_no_write_witness :
  ∃ fs', main read_only sample_root false (main posix sample_root false fresh_fs).2
           = (Ok (summary sample_root), fs') ∧
         modes_changed (main posix sample_root false fresh_fs).2 fs'.
Proof.
  apply complete_scaffold_needs_no_write. vm_compute. reflexivity.
Defined.
